(** * FacePro: the recognition decision pipeline

    A shallow embedding of the decision core of the facial recognition
    system: the distance matcher and the classifier path
    ([recognize_face.py]), the per-frame liveness filter and stability gate
    of [recognize_from_camera], the access logger, the subject registry
    ([database_utils.py]), the enrollment loop ([capture_faces.py]) and the
    embedding builder ([train_embeddings.py], [sql_database.py]).

    Conventions.
    - Descriptors, distances, thresholds and classifier probabilities are
      read as real numbers: the float32/float64 rounding of numpy is
      idealised away, the control flow and the comparisons are kept.
    - A Python dict whose key may be absent is a record with [option]
      fields; subject ids that are present are integers, as [register_user]
      writes them.
    - The camera, the face-representation model, the image resize and the
      clock are inputs: a frame carries what these collaborators returned
      for it. A camera is the list of its reads; a read that fails, or the
      end of the list, is [ret = False].
    - Strings are their UTF-8 bytes.
    - Files and directories are fields of a world record; reads and writes
      succeed unless a definition takes the outcome as an argument. *)

From Stdlib Require Import Reals Lra ZArith QArith Lia Ascii String.
From stdpp Require Import gmap strings list vector pretty.

Local Open Scope Z_scope.

(** ** Numeric helpers on real vectors (numpy) *)

Module Np.

(** [np.linalg.norm(v)]: the Euclidean norm of one vector. *)
Definition norm {n : nat} (v : vec R n) : R :=
  sqrt (foldr Rplus 0%R (vec_to_list (vmap (fun x => (x * x)%R) v))).

(** [v / s] with a scalar [s]. *)
Definition scale_div {n : nat} (v : vec R n) (s : R) : vec R n :=
  vmap (fun x => (x / s)%R) v.

(** [a - b], component by component. *)
Definition sub {n : nat} (a b : vec R n) : vec R n :=
  vzip_with Rminus a b.

(** [np.argmin]: index of the first occurrence of the smallest entry.
    [argmin_from best besti i l] scans [l], whose head has index [i],
    knowing that [best] at index [besti] is the smallest entry so far. *)
Fixpoint argmin_from (best : R) (besti i : nat) (l : list R) : nat :=
  match l with
  | [] => besti
  | x :: l' =>
      if Rlt_dec x best then argmin_from x i (S i) l'
      else argmin_from best besti (S i) l'
  end.

Definition argmin (l : list R) : nat :=
  match l with
  | [] => 0%nat
  | x :: l' => argmin_from x 0 1 l'
  end.

(** [np.argmax]: index of the first occurrence of the largest entry. *)
Fixpoint argmax_from (best : R) (besti i : nat) (l : list R) : nat :=
  match l with
  | [] => besti
  | x :: l' =>
      if Rlt_dec best x then argmax_from x i (S i) l'
      else argmax_from best besti (S i) l'
  end.

Definition argmax (l : list R) : nat :=
  match l with
  | [] => 0%nat
  | x :: l' => argmax_from x 0 1 l'
  end.

(** [cv2.absdiff] on two gray crops, pixel by pixel. *)
Definition absdiff (a b : list Z) : list Z :=
  zip_with (fun x y => Z.abs (x - y)) a b.

(** [arr.mean()]: [None] stands for the nan of an empty array. *)
Definition mean (l : list Z) : option Q :=
  match l with
  | [] => None
  | _ => Some (Qmake (foldr Z.add 0 l) (Pos.of_nat (length l)))
  end.

End Np.

(** ** Data model *)

(** A subject record of [users.json]: [{"id": .., "name": .., "cpf": ..}]. *)
Record user := User {
  user_id : option Z;
  user_name : option string;
  user_cpf : option string
}.

(** Per-subject display metadata stored with the trained classifier. *)
Record subject_meta := SubjectMeta {
  meta_name : option string;
  meta_cpf : option string
}.

(** [facial_area] of a representation: [{"x": .., "y": .., "w": .., "h": ..}]. *)
Record facial_area := FacialArea {
  fa_x : Z;
  fa_y : Z;
  fa_w : Z;
  fa_h : Z
}.

(** Parameters of [recognize_face.py]. *)
Definition DEFAULT_THRESHOLD : R := 0.6%R.
Definition LIVENESS_DIFF_THRESHOLD : Q := 1%Q.
Definition LIVENESS_STATIC_FRAMES : Z := 10.
Definition CLASSIFIER_MIN_PROBA : R := 0.8%R.

(** [timedelta(seconds=3)]; instants are integers counting microseconds. *)
Definition STABILITY_WINDOW : Z := 3000000.

(** ** The liveness filter (lines 311-330 of [recognize_face.py])

    [prev] is the previous gray crop, [gray_roi] the current one after
    [cv2.resize(.., (64, 64))]; the shape of a crop is its number of pixels.
    Returns the new previous crop, the new static counter and [is_live]. *)
Definition liveness_filter
    (prev_face_roi_gray : option (list Z)) (static_frames : Z)
    (gray_roi : list Z) : option (list Z) * Z * bool :=
  let static_frames' :=
    match prev_face_roi_gray with
    | Some prev =>
        if decide (length prev = length gray_roi) then
          match Np.mean (Np.absdiff gray_roi prev) with
          | Some mean_diff =>
              if Qlt_le_dec mean_diff LIVENESS_DIFF_THRESHOLD
              then static_frames + 1
              else 0
          | None => 0
          end
        else 0
    | None => 0
    end in
  (Some gray_roi, static_frames',
   if LIVENESS_STATIC_FRAMES <=? static_frames' then false else true).

(** The filter run over a sequence of crops from given state; per crop the
    counter after the update and the live/static verdict. *)
Fixpoint liveness_run
    (prev : option (list Z)) (static_frames : Z) (crops : list (list Z))
    : list (Z * bool) :=
  match crops with
  | [] => []
  | c :: rest =>
      let '(prev', static', is_live) := liveness_filter prev static_frames c in
      (static', is_live) :: liveness_run prev' static' rest
  end.

(** ** State of one recognition session (lines 205-215) *)

Record loop_state := LoopState {
  prev_face_roi_gray : option (list Z);
  static_frames : Z;
  last_recognized_user_id : option Z;
  pending_user_id : option Z;
  pending_start_time : option Z
}.

Definition initial_state : loop_state :=
  LoopState None 0 None None None.

Definition set_liveness (st : loop_state) (prev : option (list Z)) (sf : Z)
    : loop_state :=
  LoopState prev sf (last_recognized_user_id st)
            (pending_user_id st) (pending_start_time st).

Definition set_pending (st : loop_state) (p : option Z) (t : option Z)
    : loop_state :=
  LoopState (prev_face_roi_gray st) (static_frames st)
            (last_recognized_user_id st) p t.

Definition set_last (st : loop_state) (l : option Z) : loop_state :=
  LoopState (prev_face_roi_gray st) (static_frames st) l
            (pending_user_id st) (pending_start_time st).

(** ** The stability gate (lines 339-356 and 486-489)

    [current_user_id] is [int(match.get("id"))], [None] when that fails.
    The boolean tells whether the access is confirmed in this frame, that
    is whether [_log_access_event] is called. *)
Definition stability_gate
    (st : loop_state) (current_user_id : option Z) (now : Z)
    : loop_state * bool :=
  match current_user_id with
  | Some cur =>
      if decide (pending_user_id st ≠ Some cur) then
        (set_pending st (Some cur) (Some now), false)
      else
        match pending_start_time st with
        | Some t0 =>
            if (STABILITY_WINDOW <=? now - t0)
               && negb (bool_decide (last_recognized_user_id st = Some cur))
            then (set_last st (Some cur), true)
            else (st, false)
        | None => (st, false)
        end
  | None => (set_pending st None None, false)
  end.

(** The "no match" branch of the frame (lines 515-518). *)
Definition reset_pending (st : loop_state) : loop_state :=
  set_pending st None None.

(** What the gate sees in one frame: an accepted id at an instant, or a
    frame that ended without a match. *)
Inductive gate_obs :=
  | Accepted (id : Z) (now : Z)
  | NoMatch.

Definition gate_step (st : loop_state) (o : gate_obs) : loop_state * list Z :=
  match o with
  | Accepted id now =>
      let '(st', fired) := stability_gate st (Some id) now in
      (st', if fired then [id] else [])
  | NoMatch => (reset_pending st, [])
  end.

(** The gate driven by a stream of observations; the ids of the access
    events, in order. *)
Fixpoint gate_run (st : loop_state) (stream : list gate_obs)
    : loop_state * list Z :=
  match stream with
  | [] => (st, [])
  | o :: rest =>
      let '(st1, ev1) := gate_step st o in
      let '(st2, ev2) := gate_run st1 rest in
      (st2, ev1 ++ ev2)
  end.

(** No run of one id in the stream lasts three seconds: [run_short a t0 s]
    follows the run of [a] that started at [t0] into [s]. *)
Fixpoint run_short (a : Z) (t0 : Z) (stream : list gate_obs) : Prop :=
  match stream with
  | Accepted b t :: rest =>
      if decide (b = a) then t - t0 < STABILITY_WINDOW ∧ run_short a t0 rest
      else True
  | _ => True
  end.

(** Every observation of the stream is the accepted id [a]. *)
Definition all_accepted (a : Z) (stream : list gate_obs) : Prop :=
  Forall (fun o => ∃ t, o = Accepted a t) stream.

(** The part of the state the gate reads and writes. *)
Definition gate_view (st : loop_state) : option Z * option Z * option Z :=
  (pending_user_id st, pending_start_time st, last_recognized_user_id st).

Fixpoint short_runs (stream : list gate_obs) : Prop :=
  match stream with
  | [] => True
  | Accepted a t :: rest => run_short a t rest ∧ short_runs rest
  | NoMatch :: rest => short_runs rest
  end.

(** The run that is pending in [st] stays short when continued by the
    stream. *)
Definition pending_short (st : loop_state) (stream : list gate_obs) : Prop :=
  match pending_user_id st, pending_start_time st with
  | Some a, Some t0 => run_short a t0 stream
  | _, _ => True
  end.

(** ** The [csv] writer, as [_log_access_event] configures it

    [csv.writer(csvfile, delimiter=";")] with the defaults of the module:
    minimal quoting with the double quote, doubled inside a quoted field,
    and the line terminator CR LF (the file is opened with [newline=""]). *)

Module Csv.

Definition delimiter : ascii := ";"%char.
Definition quotechar : ascii := ascii_of_nat 34.
Definition CR : ascii := ascii_of_nat 13.
Definition LF : ascii := ascii_of_nat 10.

Definition lineterminator : string :=
  String CR (String LF EmptyString).

Definition special (c : ascii) : bool :=
  Ascii.eqb c delimiter || Ascii.eqb c quotechar
  || Ascii.eqb c CR || Ascii.eqb c LF.

Definition needs_quote (s : string) : bool :=
  existsb special (list_ascii_of_string s).

Fixpoint double_quotes (s : string) : string :=
  match s with
  | EmptyString => EmptyString
  | String c s' =>
      if Ascii.eqb c quotechar
      then String c (String c (double_quotes s'))
      else String c (double_quotes s')
  end.

Definition field (s : string) : string :=
  if needs_quote s
  then String quotechar (double_quotes s +:+ String quotechar EmptyString)
  else s.

(** The text that [writer.writerow(fields)] appends. *)
Definition writerow (fields : list string) : string :=
  String.concat (String delimiter EmptyString) (map field fields)
  +:+ lineterminator.

End Csv.

(** ** The subject registry ([database_utils.py])

    [users_json] is the content of [users.json] ([None]: no such file),
    [images] maps a subject id to the sorted [.jpg] names of the directory
    [images/<id>/], and [json_writes] counts the writes of [users.json]. *)

Record world := World {
  users_json : option (list user);
  images : gmap Z (list string);
  json_writes : nat
}.

Definition load_users (w : world) : list user :=
  default [] (users_json w).

Definition save_users (users : list user) (w : world) : world :=
  World (Some users) (images w) (S (json_writes w)).

(** [max(int(u.get("id", 0)) for u in users) + 1], and 1 without users. *)
Definition get_next_user_id (users : list user) : Z :=
  match users with
  | [] => 1
  | u :: us =>
      foldl Z.max (default 0 (user_id u))
            (map (fun u => default 0 (user_id u)) us) + 1
  end.

(** The empty string is Python's false value. *)
Definition nonempty (s : string) : bool :=
  match s with
  | EmptyString => false
  | _ => true
  end.

Definition register_user (name cpf : string) (w : world) : world * Z :=
  let users := load_users w in
  let user_id := get_next_user_id users in
  let user :=
    User (Some user_id) (Some name) (if nonempty cpf then Some cpf else None) in
  (save_users (users ++ [user]) w, user_id).

(** The id that [delete_user] reads from a record: [int(u.get("id", -1))]. *)
Definition record_id (u : user) : Z :=
  default (-1) (user_id u).

Definition delete_user (user_id : Z) (delete_images : bool) (w : world)
    : world * bool :=
  let users := load_users w in
  let remaining :=
    List.filter (fun u => negb (record_id u =? user_id)) users in
  if decide (length remaining = length users) then (w, false)
  else
    let w1 := save_users remaining w in
    let w2 :=
      if delete_images
      then World (users_json w1) (delete user_id (images w1)) (json_writes w1)
      else w1 in
    (w2, true).

(** [_create_user_image_dir]: [mkdir(parents=True, exist_ok=True)]. *)
Definition _create_user_image_dir (user_id : Z) (w : world) : world :=
  match images w !! user_id with
  | Some _ => w
  | None => World (users_json w) (<[user_id := []]> (images w)) (json_writes w)
  end.

(** [f"{captured:03d}.jpg"] for a count that is not negative. *)
Definition image_name (captured : Z) : string :=
  let digits := pretty captured in
  String.concat EmptyString
    (replicate (3 - String.length digits) "0") +:+ digits +:+ ".jpg".

Fixpoint sorted_insert (name : string) (names : list string) : list string :=
  match names with
  | [] => [name]
  | n :: rest =>
      if String.eqb name n then names
      else if String.leb name n then name :: names
      else n :: sorted_insert name rest
  end.

(** [cv2.imwrite(str(user_dir / name), frame)]. *)
Definition imwrite (user_id : Z) (name : string) (w : world) : world :=
  World (users_json w)
        (<[user_id := sorted_insert name (default [] (images w !! user_id))]>
           (images w))
        (json_writes w).

(** ** Dataset import ([ingest_lfw.py])

    [person_dirs] lists the person directories under the people root in
    sorted order, each with its name and its sorted image files. *)

(** Lines 68-70: the dict of name to id of the registered subjects; a
    later record of the same name replaces an earlier one. *)
Definition existing_by_name (users : list user) : gmap string Z :=
  foldl (fun d u =>
           match user_id u, user_name u with
           | Some id, Some name => <[name := id]> d
           | _, _ => d
           end)
        ∅ users.

(** Lines 118-124, with [MAX_IMAGES_PER_PERSON = 0]: every image file is
    copied to the next numbered name. *)
Fixpoint copy_images
    (user_id : Z) (count : Z) (image_files : list string) (w : world)
    : world :=
  match image_files with
  | [] => w
  | _ :: rest =>
      copy_images user_id (count + 1) rest
                  (imwrite user_id (image_name count) w)
  end.

(** Lines 81-132: the body of the loop for one person directory; the state
    is the dict [existing_by_name] and the world. *)
Definition ingest_person
    (st : gmap string Z * world) (person : string * list string)
    : gmap string Z * world :=
  match person.2 with
  | [] => st
  | _ =>
      let '(existing, w1, user_id) :=
        match st.1 !! person.1 with
        | Some id => (st.1, st.2, id)
        | None =>
            let '(w', id) := register_user person.1 EmptyString st.2 in
            (<[person.1 := id]> st.1, w', id)
        end in
      let w2 := _create_user_image_dir user_id w1 in
      match default [] (images w2 !! user_id) with
      | [] => (existing, copy_images user_id 0 person.2 w2)
      | _ => (existing, w2)
      end
  end.

(** Lines 59-134; the early return of lines 73-75 is the empty loop. *)
Definition ingest_lfw_dataset
    (person_dirs : list (string * list string)) (w : world) : world :=
  (foldl ingest_person (existing_by_name (load_users w), w) person_dirs).2.

(** A person directory needs no work in a state: its name is known and
    the directory of its id holds images. *)
Definition settled
    (st : gmap string Z * world) (person : string * list string) : Prop :=
  person.2 ≠ [] →
  ∃ id names, st.1 !! person.1 = Some id
              ∧ images st.2 !! id = Some names ∧ names ≠ [].

Section Recognition.

(** Dimension of the descriptors produced by the representation model. *)
Variable D : nat.

(** [now.strftime("%d/%m/%Y %H:%M:%S")]. *)
Variable strftime : Z -> string.

(** A reference descriptor record of [embeddings.pkl]. *)
Record embedding_record := EmbeddingRecord {
  e_id : option Z;
  e_name : option string;
  e_cpf : option string;
  e_image : string;
  e_embedding : vec R D
}.

(** *** The distance matcher *)

(** The distances computed by [_find_best_match] before the selection:
    every reference vector and the query are divided by their norm plus
    1e-8, and the norm of each difference is taken. *)
Definition normalized_distances
    (query_embedding : vec R D) (embeddings : list embedding_record) : list R :=
  let db_vectors := map e_embedding embeddings in
  let db_norms := map (fun v => (Np.norm v + 1e-8)%R) db_vectors in
  let db_vectors_norm := zip_with Np.scale_div db_vectors db_norms in
  let q_norm := (Np.norm query_embedding + 1e-8)%R in
  let query_norm := Np.scale_div query_embedding q_norm in
  let diff := map (fun v => Np.sub v query_norm) db_vectors_norm in
  map Np.norm diff.

Definition _find_best_match
    (query_embedding : vec R D) (embeddings : list embedding_record)
    (threshold : R) : option embedding_record * option R :=
  match embeddings with
  | [] => (None, None)
  | _ =>
      let dists := normalized_distances query_embedding embeddings in
      let idx := Np.argmin dists in
      let best_dist := nth idx dists 0%R in
      if Rlt_dec best_dist threshold
      then (embeddings !! idx, Some best_dist)
      else (None, Some best_dist)
  end.

(** The distance matcher as the specification words it: unit-normalise
    (with the epsilon), take the Euclidean distance. *)
Definition spec_normalize (v : vec R D) : vec R D :=
  vmap (fun x => (x / (Np.norm v + 1e-8))%R) v.

Definition spec_distance (query : vec R D) (e : embedding_record) : R :=
  Np.norm (vzip_with Rminus (spec_normalize (e_embedding e))
                            (spec_normalize query)).

(** *** The classifier and the match engine *)

(** The trained model: [predict_proba] on one descriptor ([None] when it
    raises) and the class labels [classes_]. *)
Record classifier := Classifier {
  predict_proba : vec R D -> option (list R);
  classes_ : list Z
}.

Record classifier_bundle := ClassifierBundle {
  bundle_model : option classifier;
  bundle_meta : gmap Z subject_meta
}.

(** The [match] variable of the loop: the dict built from a classifier
    prediction, or the reference record returned by the distance matcher. *)
Inductive match_dict :=
  | ClassifierMatch (id : Z) (name : string) (cpf : option string)
  | DistanceMatch (e : embedding_record).

Definition match_id (m : match_dict) : option Z :=
  match m with
  | ClassifierMatch id _ _ => Some id
  | DistanceMatch e => e_id e
  end.

Definition match_name (m : match_dict) : option string :=
  match m with
  | ClassifierMatch _ name _ => Some name
  | DistanceMatch e => e_name e
  end.

Definition match_cpf (m : match_dict) : option string :=
  match m with
  | ClassifierMatch _ _ cpf => cpf
  | DistanceMatch e => e_cpf e
  end.

(** The id of the match is present and is an active subject. *)
Definition has_active_id (active : gset Z) (m : match_dict) : Prop :=
  ∃ id, match_id m = Some id ∧ id ∈ active.

(** What [recognize_from_camera] computes before opening the camera. *)
Record session := Session {
  active_user_ids : gset Z;
  filtered_embeddings : list embedding_record;
  session_classifier : option classifier;
  classifier_meta : gmap Z subject_meta;
  session_threshold : R
}.

(** Lines 257-276: the classifier path; returns [match] and [best_proba].
    An exception anywhere in the [try] leaves [match = None]. *)
Definition classifier_path (ss : session) (query_emb : vec R D)
    : option match_dict * option R :=
  match session_classifier ss with
  | None => (None, None)
  | Some clf =>
      match predict_proba clf query_emb with
      | None => (None, None)
      | Some [] => (None, None)
      | Some probs =>
          let best_idx := Np.argmax probs in
          let best_proba := nth best_idx probs 0%R in
          match classes_ clf !! best_idx with
          | None => (None, Some best_proba)
          | Some predicted_id =>
              if Rge_dec best_proba CLASSIFIER_MIN_PROBA then
                if decide (predicted_id ∈ active_user_ids ss) then
                  let subject_meta :=
                    default (SubjectMeta None None)
                            (classifier_meta ss !! predicted_id) in
                  (Some (ClassifierMatch predicted_id
                           (default (pretty predicted_id)
                                    (meta_name subject_meta))
                           (meta_cpf subject_meta)),
                   Some best_proba)
                else (None, Some best_proba)
              else (None, Some best_proba)
          end
      end
  end.

Record engine_result := EngineResult {
  er_match : option match_dict;
  er_dist : option R;
  er_best_proba : option R
}.

(** Lines 280-291: the distance search over the references of active
    subjects; returns [match] and [dist]. *)
Definition distance_path (ss : session) (query_emb : vec R D)
    : option match_dict * option R :=
  match filtered_embeddings ss with
  | [] => (None, None)
  | _ =>
      let '(e, dist) :=
        _find_best_match query_emb (filtered_embeddings ss)
                         (session_threshold ss) in
      (DistanceMatch <$> e, dist)
  end.

(** Lines 252-291: classifier first, distance search when it gave no match. *)
Definition match_engine (ss : session) (query_emb : vec R D) : engine_result :=
  let '(m, best_proba) := classifier_path ss query_emb in
  match m with
  | Some _ => EngineResult m None best_proba
  | None =>
      let '(m', dist) := distance_path ss query_emb in
      EngineResult m' dist best_proba
  end.

(** *** One frame of the recognition loop *)

(** One element of what [DeepFace.represent] returns. *)
Record rep := Rep {
  rep_embedding : vec R D;
  rep_facial_area : option facial_area
}.

(** Outcome of [DeepFace.represent(frame, enforce_detection=True)]: it
    raised (the flag tells whether the message contains
    "Face could not be detected"), or it returned a list. *)
Inductive represent_result :=
  | RepresentRaised (face_not_detected : bool)
  | RepresentOk (reps : list rep).

(** One successful [cap.read()] with what the collaborators return for it:
    the representation, [frame.shape], the gray 64x64 crop of the face
    region, [datetime.now()] and [cv2.waitKey(1) & 0xFF]. *)
Record frame := Frame {
  frame_represent : represent_result;
  frame_height : Z;
  frame_width : Z;
  frame_gray_roi : list Z;
  frame_now : Z;
  frame_key : Z
}.

(** A call [_log_access_event(match, entry_time)]. *)
Record access_event := AccessEvent {
  ev_user : match_dict;
  ev_timestamp : string
}.

(** The text drawn on the frame, with the values it is formatted from. *)
Inductive overlay :=
  | NoText
  | NoFaceText
  | ErrorText
  | StaticMatchText (name : option string)
  | ProbaText (name : option string) (best_proba : R)
  | DistText (name : option string) (dist : R)
  | NameText (name : option string)
  | StaticText
  | NotFoundText.

(** What one frame shows and logs; [out_match] is the [match] variable
    when the text is chosen, after the re-check of lines 492-499. *)
Record frame_output := FrameOutput {
  out_match : option match_dict;
  out_text : overlay;
  out_box : option (Z * Z * Z * Z);
  out_access : option access_event
}.

(** Lines 295-307: the face region clamped to the frame, as [(x, y, x2, y2)],
    when it is not empty. *)
Definition clamp_roi (f : frame) (fa : facial_area)
    : option (Z * Z * Z * Z) :=
  let x := Z.max 0 (fa_x fa) in
  let y := Z.max 0 (fa_y fa) in
  let w := Z.max 0 (fa_w fa) in
  let h := Z.max 0 (fa_h fa) in
  let x2 := Z.min (frame_width f) (x + w) in
  let y2 := Z.min (frame_height f) (y + h) in
  if (x <? x2) && (y <? y2) then Some (x, y, x2, y2) else None.

(** Lines 293-489: liveness update and stability gate, reached only with a
    non-empty face region. Returns the state, [is_live], [box_coords] and
    the access event logged in this frame. *)
Definition process_face
    (st : loop_state) (f : frame) (r : rep) (m : option match_dict)
    : loop_state * option bool * option (Z * Z * Z * Z) * option access_event :=
  match rep_facial_area r with
  | None => (st, None, None, None)
  | Some fa =>
      match clamp_roi f fa with
      | None => (st, None, None, None)
      | Some (x, y, x2, y2) =>
          let box_coords := Some (x, y, x2 - x, y2 - y) in
          let '(prev, sf, live) :=
            liveness_filter (prev_face_roi_gray st) (static_frames st)
                            (frame_gray_roi f) in
          let st1 := set_liveness st prev sf in
          match m with
          | Some md =>
              if live then
                let '(st2, confirmed) :=
                  stability_gate st1 (match_id md) (frame_now f) in
                (st2, Some live, box_coords,
                 if confirmed
                 then Some (AccessEvent md (strftime (frame_now f)))
                 else None)
              else (st1, Some live, box_coords, None)
          | None => (st1, Some live, box_coords, None)
          end
      end
  end.

(** Lines 492-499: the match is kept only if its id is an active subject. *)
Definition recheck_active (active : gset Z) (m : option match_dict)
    : option match_dict :=
  match m with
  | Some md =>
      match match_id md with
      | Some mid => if decide (mid ∈ active) then Some md else None
      | None => None
      end
  | None => None
  end.

(** Lines 501-526: the text of the frame. *)
Definition overlay_text
    (m : option match_dict) (is_live : option bool)
    (best_proba dist : option R) : overlay :=
  match m with
  | Some md =>
      if decide (is_live = Some false) then StaticMatchText (match_name md)
      else
        match best_proba, dist with
        | Some p, _ => ProbaText (match_name md) p
        | None, Some d => DistText (match_name md) d
        | None, None => NameText (match_name md)
        end
  | None =>
      if decide (is_live = Some false) then StaticText else NotFoundText
  end.

(** Lines 224-547: the body of the loop for one frame that was read. *)
Definition process_frame (ss : session) (st : loop_state) (f : frame)
    : loop_state * frame_output :=
  match frame_represent f with
  | RepresentRaised face_not_detected =>
      (st, FrameOutput None
                       (if face_not_detected then NoFaceText else ErrorText)
                       None None)
  | RepresentOk [] => (st, FrameOutput None NoText None None)
  | RepresentOk (r :: _) =>
      let er := match_engine ss (rep_embedding r) in
      let '(st1, is_live, box_coords, access) :=
        process_face st f r (er_match er) in
      let m := recheck_active (active_user_ids ss) (er_match er) in
      let text := overlay_text m is_live (er_best_proba er) (er_dist er) in
      match m with
      | Some _ => (st1, FrameOutput m text box_coords access)
      | None => (reset_pending st1, FrameOutput m text box_coords access)
      end
  end.

(** [key in (ord("q"), ord("Q"))]. *)
Definition is_quit_key (key : Z) : bool :=
  (key =? 113) || (key =? 81).

(** Lines 218-553: the loop over the reads of the camera. *)
Fixpoint camera_loop
    (ss : session) (st : loop_state) (reads : list (option frame))
    : loop_state * list frame_output :=
  match reads with
  | [] => (st, [])
  | None :: _ => (st, [])
  | Some f :: rest =>
      let '(st1, out) := process_frame ss st f in
      if is_quit_key (frame_key f) then (st1, [out])
      else
        let '(st2, outs) := camera_loop ss st1 rest in
        (st2, out :: outs)
  end.

(** Lines 174-179: the ids of the registered subjects. *)
Definition active_ids (users : list user) : gset Z :=
  list_to_set (omap user_id users).

(** Lines 181-189: the references of active subjects only. *)
Definition is_active_embedding (active : gset Z) (e : embedding_record)
    : bool :=
  match e_id e with
  | Some sid => bool_decide (sid ∈ active)
  | None => false
  end.

Definition filter_embeddings
    (active : gset Z) (embeddings : list embedding_record)
    : list embedding_record :=
  List.filter (is_active_embedding active) embeddings.

Definition open_session
    (threshold : R) (embeddings : list embedding_record) (users : list user)
    (bundle : option classifier_bundle) : session :=
  let active := active_ids users in
  Session active (filter_embeddings active embeddings)
          (bundle ≫= bundle_model)
          (from_option bundle_meta ∅ bundle)
          threshold.

(** [recognize_from_camera]: [camera] is [None] when the device cannot be
    opened. The result lists what each processed frame displayed and
    logged. *)
Definition recognize_from_camera
    (threshold : R) (camera : option (list (option frame)))
    (embeddings : list embedding_record) (users : list user)
    (bundle : option classifier_bundle) : list frame_output :=
  let ss := open_session threshold embeddings users bundle in
  match camera with
  | None => []
  | Some reads => snd (camera_loop ss initial_state reads)
  end.

(** The access events of a session, in order. *)
Definition logged_events (outs : list frame_output) : list access_event :=
  omap out_access outs.

(** The subject ids of those events. *)
Definition logged_ids (outs : list frame_output) : list Z :=
  omap (fun ev => match_id (ev_user ev)) (logged_events outs).

(** A frame in which subject [a] is accepted: the first representation has
    a face region that is not empty after the clamp, and the match that the
    engine returns for it carries the id [a] of a registered subject. With
    a live verdict such a frame reaches the stability gate of lines 333-356
    with [current_user_id = a]. *)
Definition accepted_frame (ss : session) (a : Z) (f : frame) : Prop :=
  ∃ r rs md fa box,
    frame_represent f = RepresentOk (r :: rs)
    ∧ rep_facial_area r = Some fa ∧ clamp_roi f fa = Some box
    ∧ er_match (match_engine ss (rep_embedding r)) = Some md
    ∧ match_id md = Some a ∧ a ∈ active_user_ids ss.

(** *** The access logger (lines 92-115) *)

Inductive log_record :=
  | AccessRegistered (user_id : option Z) (name cpf : option string)
                     (timestamp : string)
  | AccessLogError.

Definition access_log_header : list string :=
  ["timestamp"; "user_id"; "name"; "cpf"].

Definition access_log_row (user : match_dict) (timestamp : string)
    : list string :=
  [timestamp;
   from_option pretty EmptyString (match_id user);
   default EmptyString (match_name user);
   default EmptyString (match_cpf user)].

(** How the [try] block of [_log_access_event] ends: it completes; it
    raises before the file is opened; or it raises after the file was
    opened in append mode, when [written] bytes of the text to append had
    reached the file. *)
Inductive try_outcome :=
  | Completed
  | RaisedBeforeOpen
  | RaisedAfterOpen (written : nat).

(** [csvfile] is the content of [access_log.csv] ([None]: no such file).
    An exception is caught and logged. Returns the new content and the
    record sent to the logger. *)
Definition _log_access_event
    (outcome : try_outcome) (csvfile : option string)
    (user : match_dict) (timestamp : string)
    : option string * log_record :=
  let file_exists := bool_decide (is_Some csvfile) in
  let header :=
    if file_exists then EmptyString else Csv.writerow access_log_header in
  let row := Csv.writerow (access_log_row user timestamp) in
  match outcome with
  | Completed =>
      (Some (default EmptyString csvfile +:+ header +:+ row),
       AccessRegistered (match_id user) (match_name user) (match_cpf user)
                        timestamp)
  | RaisedBeforeOpen => (csvfile, AccessLogError)
  | RaisedAfterOpen written =>
      (Some (default EmptyString csvfile
             +:+ String.substring 0 written (header +:+ row)),
       AccessLogError)
  end.

(** *** The enrollment loop ([capture_faces.py]) *)

Definition STABLE_LIVE_FRAMES : Z := 5.
Definition CAPTURE_INTERVAL : Z := 5.

Record capture_state := CaptureState {
  captured : Z;
  frame_count : Z;
  c_prev_face_roi_gray : option (list Z);
  c_static_frames : Z;
  live_stable_frames : Z
}.

(** Lines 111-157 of [capture_faces.py]: liveness on the face region;
    returns the state and [has_live_face]. *)
Definition capture_liveness (cs : capture_state) (f : frame)
    : capture_state * bool :=
  match frame_represent f with
  | RepresentOk (r :: _) =>
      match rep_facial_area r with
      | Some fa =>
          match clamp_roi f fa with
          | Some _ =>
              let '(prev, sf, live) :=
                liveness_filter (c_prev_face_roi_gray cs) (c_static_frames cs)
                                (frame_gray_roi f) in
              if live
              then (CaptureState (captured cs) (frame_count cs) prev sf
                                 (live_stable_frames cs + 1), true)
              else (CaptureState (captured cs) (frame_count cs) prev sf 0,
                    false)
          | None => (cs, false)
          end
      | None => (cs, false)
      end
  | _ => (cs, false)
  end.

(** Lines 81-188: one iteration; the boolean tells whether the loop breaks. *)
Definition capture_step
    (num_images : Z) (user_id : Z) (cs : capture_state) (w : world) (f : frame)
    : capture_state * world * bool :=
  let '(cs1, has_live_face) := capture_liveness cs f in
  let quit := is_quit_key (frame_key f) in
  if has_live_face && (STABLE_LIVE_FRAMES <=? live_stable_frames cs1) then
    let frame_count' := frame_count cs1 + 1 in
    if (frame_count' mod CAPTURE_INTERVAL =? 0)
       && (captured cs1 <? num_images)
    then
      let w1 := imwrite user_id (image_name (captured cs1)) w in
      let cs2 :=
        CaptureState (captured cs1 + 1) frame_count'
                     (c_prev_face_roi_gray cs1) (c_static_frames cs1)
                     (live_stable_frames cs1) in
      if num_images <=? captured cs2 then (cs2, w1, true)
      else (cs2, w1, quit)
    else
      (CaptureState (captured cs1) frame_count'
                    (c_prev_face_roi_gray cs1) (c_static_frames cs1)
                    (live_stable_frames cs1), w, quit)
  else (cs1, w, quit).

Fixpoint capture_loop
    (num_images : Z) (user_id : Z) (cs : capture_state) (w : world)
    (reads : list (option frame)) : capture_state * world :=
  match reads with
  | [] => (cs, w)
  | None :: _ => (cs, w)
  | Some f :: rest =>
      let '(cs1, w1, stop) := capture_step num_images user_id cs w f in
      if stop then (cs1, w1)
      else capture_loop num_images user_id cs1 w1 rest
  end.

(** Lines 62-191: the subject is registered, its directory created and
    the loop run; returns the new id, the final counters and the world. *)
Definition enrollment_run
    (name cpf : string) (num_images : Z) (reads : list (option frame))
    (w : world) : Z * capture_state * world :=
  let '(w1, user_id) := register_user name cpf w in
  let w2 := _create_user_image_dir user_id w1 in
  let '(cs, w3) :=
    capture_loop num_images user_id (CaptureState 0 0 None 0 0) w2 reads in
  (user_id, cs, w3).

(** [capture_user_faces]: [camera] is [None] when the device cannot be
    opened. *)
Definition capture_user_faces
    (name cpf : string) (num_images : Z)
    (camera : option (list (option frame))) (w : world)
    : world * option Z :=
  match camera with
  | None => (w, None)
  | Some reads =>
      let '(user_id, cs, w3) := enrollment_run name cpf num_images reads w in
      if captured cs =? 0
      then (fst (delete_user user_id true w3), None)
      else (w3, Some user_id)
  end.

(** *** The embedding builder ([train_embeddings.py]) *)

(** [DeepFace.represent(img_path, enforce_detection=False)] on a stored
    image; [None] when it raises. *)
Variable represent_path : string -> option (list rep).

(** [str(IMAGES_DIR / str(uid) / name)], relative to the images directory. *)
Definition image_path (uid : Z) (name : string) : string :=
  pretty uid +:+ "/" +:+ name.

Record image_info := ImageInfo {
  info_id : Z;
  info_name : option string;
  info_cpf : option string;
  info_path : string
}.

Definition _collect_image_paths (w : world) : list image_info :=
  flat_map
    (fun u =>
       match user_id u with
       | None => []
       | Some uid =>
           match images w !! uid with
           | None => []
           | Some names =>
               map (fun n => ImageInfo uid (user_name u) (user_cpf u)
                                       (image_path uid n))
                   names
           end
       end)
    (load_users w).

(** The record built for one image, when the model returns a descriptor. *)
Definition embed_image (item : image_info) : option embedding_record :=
  match represent_path (info_path item) with
  | Some (r :: _) =>
      Some (EmbeddingRecord (Some (info_id item)) (info_name item)
                            (info_cpf item) (info_path item)
                            (rep_embedding r))
  | _ => None
  end.

(** [generate_embeddings]: [pkl] is the content of [embeddings.pkl]
    ([None]: no such file). Returns the new content and the count. *)
Definition generate_embeddings
    (pkl : option (list embedding_record)) (w : world)
    : option (list embedding_record) * Z :=
  let images_info := _collect_image_paths w in
  match images_info with
  | [] => (pkl, 0)
  | _ =>
      let embeddings := omap embed_image images_info in
      match embeddings with
      | [] => (pkl, 0)
      | _ => (Some embeddings, Z.of_nat (length embeddings))
      end
  end.

(** *** The SQLite copy ([sql_database.py]) *)

Record subject_row := SubjectRow {
  subject_name : string;
  subject_cpf : option string
}.

Record embedding_row := EmbeddingRow {
  row_subject_id : Z;
  row_image_path : string;
  row_embedding : vec R D
}.

Record database := Database {
  subjects : gmap Z subject_row;
  embeddings_table : list embedding_row
}.

(** [INSERT .. ON CONFLICT(id) DO UPDATE]. *)
Definition upsert_subject
    (id : Z) (name : option string) (cpf : option string) (db : database)
    : database :=
  Database (<[id := SubjectRow (default "None" name) cpf]> (subjects db))
           (embeddings_table db).

(** The body of the [for] of [replace_embeddings]; [None] when
    [int(item["id"])] raises. *)
Fixpoint insert_embeddings
    (embeddings : list embedding_record) (db : database) : option database :=
  match embeddings with
  | [] => Some db
  | item :: rest =>
      match e_id item with
      | None => None
      | Some subject_id =>
          let db1 := upsert_subject subject_id (e_name item) (e_cpf item) db in
          insert_embeddings rest
            (Database (subjects db1)
                      (embeddings_table db1
                       ++ [EmbeddingRow subject_id (e_image item)
                                        (e_embedding item)]))
      end
  end.

(** [replace_embeddings]: the new database and whether the call returned
    normally; when the loop raises, nothing is committed. *)
Definition replace_embeddings
    (embeddings : list embedding_record) (db : database) : database * bool :=
  match embeddings with
  | [] => (db, true)
  | _ =>
      match insert_embeddings embeddings (Database (subjects db) []) with
      | Some db' => (db', true)
      | None => (db, false)
      end
  end.

(** The rows of [embeddings] joined with their subject, in the order of
    the table ([SELECT .. FROM embeddings e JOIN subjects s]). *)
Definition joined_rows (db : database)
    : list (embedding_row * subject_row) :=
  omap (fun e => (fun s => (e, s)) <$> subjects db !! row_subject_id e)
       (embeddings_table db).

(** [np.array(y_list, dtype="int32")] (line 194): the ids as 32-bit signed
    integers. [None] stands for a list with an id outside that range, which
    the conversion does not give back: NumPy raises [OverflowError] there,
    and releases before 2.0 wrapped the value around. *)
Definition int32_array (y_list : list Z) : option (list Z) :=
  if decide (Forall (fun sid => -2147483648 <= sid <= 2147483647) y_list)
  then Some y_list
  else None.

(** [load_embeddings_dataset]: returns [X], [y] and the metadata by subject
    id, built from the first row of each subject; [None] when the
    conversion of [y] fails. *)
Definition load_embeddings_dataset (db : database)
    : option (list (vec R D) * list Z * gmap Z subject_meta) :=
  let rows := joined_rows db in
  match rows with
  | [] => Some ([], [], ∅)
  | _ =>
      let X := map (fun r => row_embedding r.1) rows in
      let y_list := map (fun r => row_subject_id r.1) rows in
      let meta :=
        foldl (fun meta r =>
                 let sid := row_subject_id r.1 in
                 match meta !! sid with
                 | Some _ => meta
                 | None =>
                     <[sid := SubjectMeta (Some (subject_name r.2))
                                          (subject_cpf r.2)]> meta
                 end)
              ∅ rows in
      (fun y => (X, y, meta)) <$> int32_array y_list
  end.

(** [generate_and_store_embeddings] of [train_classifier.py]: the
    descriptor file is rebuilt, read back and copied into the database.
    Returns the file, the database and the count, [None] when the call
    raises. *)
Definition generate_and_store_embeddings
    (pkl : option (list embedding_record)) (w : world) (db : database)
    : option (list embedding_record) * database * option Z :=
  let '(pkl', total) := generate_embeddings pkl w in
  if total <=? 0 then (pkl', db, Some 0)
  else
    match pkl' with
    | None => (pkl', db, None)
    | Some embeddings =>
        let '(db', returned) := replace_embeddings embeddings db in
        if returned
        then (pkl', db', Some (Z.of_nat (length embeddings)))
        else (pkl', db', None)
    end.

(** The audit file after the calls of [_log_access_event] for a list of
    events, each call completing. *)
Definition log_access_events
    (csvfile : option string) (events : list access_event) : option string :=
  foldl (fun file ev =>
           (_log_access_event Completed file (ev_user ev)
                              (ev_timestamp ev)).1)
        csvfile events.

(** What the counters of the enrollment loop satisfy after [n] frames. *)
Definition capture_inv (num_images : Z) (cs : capture_state) (n : Z) : Prop :=
  0 <= live_stable_frames cs <= n
  ∧ 0 <= frame_count cs <= Z.max 0 (n - 4)
  ∧ 0 <= captured cs ∧ 5 * captured cs <= frame_count cs
  ∧ captured cs <= Z.max 0 num_images
  ∧ 0 <= c_static_frames cs.

(** The directory of the subject holds the images captured so far; the
    other directories and the registry are those of [w0]. *)
Definition files_inv
    (user_id : Z) (w0 : world) (cs : capture_state) (w : world) : Prop :=
  (∃ names, images w !! user_id = Some names
            ∧ ∀ k, 0 <= k < captured cs → image_name k ∈ names)
  ∧ (∀ other, other ≠ user_id → images w !! other = images w0 !! other)
  ∧ users_json w = users_json w0.

End Recognition.

Arguments e_id {D} _.
Arguments e_name {D} _.
Arguments e_cpf {D} _.
Arguments e_image {D} _.
Arguments e_embedding {D} _.
Arguments normalized_distances {D} _ _.
Arguments _find_best_match {D} _ _ _.
Arguments spec_normalize {D} _.
Arguments spec_distance {D} _ _.
Arguments ClassifierMatch {D} _ _ _.
Arguments DistanceMatch {D} _.
Arguments match_id {D} _.
Arguments match_name {D} _.
Arguments match_cpf {D} _.
Arguments has_active_id {D} _ _.
Arguments active_user_ids {D} _.
Arguments filtered_embeddings {D} _.
Arguments session_classifier {D} _.
Arguments classifier_meta {D} _.
Arguments session_threshold {D} _.
Arguments predict_proba {D} _ _.
Arguments classes_ {D} _.
Arguments classifier_path {D} _ _.
Arguments distance_path {D} _ _.
Arguments match_engine {D} _ _.
Arguments er_match {D} _.
Arguments er_dist {D} _.
Arguments er_best_proba {D} _.
Arguments rep_embedding {D} _.
Arguments rep_facial_area {D} _.
Arguments RepresentRaised {D} _.
Arguments RepresentOk {D} _.
Arguments frame_represent {D} _.
Arguments frame_height {D} _.
Arguments frame_width {D} _.
Arguments frame_gray_roi {D} _.
Arguments frame_now {D} _.
Arguments frame_key {D} _.
Arguments ev_user {D} _.
Arguments ev_timestamp {D} _.
Arguments out_match {D} _.
Arguments out_text {D} _.
Arguments out_box {D} _.
Arguments out_access {D} _.
Arguments clamp_roi {D} _ _.
Arguments process_face {D} _ _ _ _ _.
Arguments recheck_active {D} _ _.
Arguments overlay_text {D} _ _ _ _.
Arguments process_frame {D} _ _ _ _.
Arguments camera_loop {D} _ _ _ _.
Arguments is_active_embedding {D} _ _.
Arguments filter_embeddings {D} _ _.
Arguments open_session {D} _ _ _ _.
Arguments recognize_from_camera {D} _ _ _ _ _ _.
Arguments logged_events {D} _.
Arguments logged_ids {D} _.
Arguments accepted_frame {D} _ _ _.
Arguments access_log_row {D} _ _.
Arguments _log_access_event {D} _ _ _ _.
Arguments capture_liveness {D} _ _.
Arguments capture_step {D} _ _ _ _ _.
Arguments capture_loop {D} _ _ _ _ _.
Arguments enrollment_run {D} _ _ _ _ _.
Arguments capture_user_faces {D} _ _ _ _ _.
Arguments embed_image {D} _ _.
Arguments generate_embeddings {D} _ _ _.
Arguments upsert_subject {D} _ _ _ _.
Arguments insert_embeddings {D} _ _.
Arguments replace_embeddings {D} _ _.
Arguments subjects {D} _.
Arguments embeddings_table {D} _.
Arguments row_subject_id {D} _.
Arguments row_image_path {D} _.
Arguments row_embedding {D} _.
Arguments joined_rows {D} _.
Arguments load_embeddings_dataset {D} _.
Arguments generate_and_store_embeddings {D} _ _ _ _.
Arguments log_access_events {D} _ _.

(** ** Concrete data used by the examples *)

(** A one-pixel-valued 64x64 crop. *)
Definition flat_crop (v : Z) : list Z := replicate 4096 v.

(** Descriptors of dimension one whose normalised values are 1/2, 4/5 and
    -2/5: the distances to the query are 0.3 and 0.9. *)
Definition query_1 : vec R 1 := [# 1e-8%R ].

Definition ana : embedding_record 1 :=
  EmbeddingRecord 1 (Some 1) (Some "Ana") None "1/000.jpg" [# 4e-8%R ].

Definition bruno : embedding_record 1 :=
  EmbeddingRecord 1 (Some 2) (Some "Bruno") None "2/000.jpg"
                  [# (- (2 / 3) * 1e-8)%R ].

(** A session in which subject 3 was deleted but a classifier trained
    earlier still predicts it, with probability 0.95. *)
Definition stale_classifier : classifier 1 :=
  Classifier 1 (fun _ => Some [0.95%R]) [3].

Definition users_ana_bruno : list user :=
  [User (Some 1) (Some "Ana") None; User (Some 2) (Some "Bruno") None].

Definition stale_session : session 1 :=
  open_session DEFAULT_THRESHOLD [ana; bruno] users_ana_bruno
               (Some (ClassifierBundle 1 (Some stale_classifier) ∅)).

(** A clock format for the examples. *)
Definition example_strftime (t : Z) : string := pretty t.

(** Subject 1 is pending since instant 0 and the last nine crops were
    near-identical; the next frame shows the same crop again. *)
Definition static_state : loop_state :=
  LoopState (Some (flat_crop 128)) 9 None (Some 1) (Some 0).

Definition static_frame : frame 1 :=
  Frame 1 (RepresentOk [Rep 1 query_1 (Some (FacialArea 10 10 100 100))])
        480 640 (flat_crop 128) 5000000 0.

(** Streams of accepted ids: one id over three seconds, two ids
    alternating every tenth of a second. *)
Definition stream_AAA : list gate_obs :=
  [Accepted 7 0; Accepted 7 1500000; Accepted 7 3000000].

Definition stream_ABAB : list gate_obs :=
  [Accepted 7 0; Accepted 8 100000; Accepted 7 200000; Accepted 8 300000].

(** A registry with two subjects and their image directories. *)
Definition world_ana_bruno : world :=
  World (Some users_ana_bruno)
        {[ 1 := ["000.jpg"]; 2 := ["000.jpg"; "001.jpg"] ]} 0.

(** A registry whose only subject is 1, with one stored image, and a
    representation model that finds the descriptor of [ana] in it. *)
Definition world_only_ana : world :=
  World (Some [User (Some 1) (Some "Ana") None]) {[ 1 := ["000.jpg"] ]} 1.

Definition represent_ana (path : string) : option (list (rep 1)) :=
  Some [Rep 1 [# 4e-8%R ] None].

(** The SQLite copy made while subject 1 was enrolled. *)
Definition database_with_ana : database 1 :=
  Database 1 {[ 1 := SubjectRow "Ana" None ]}
           [EmbeddingRow 1 1 "1/000.jpg" [# 4e-8%R ]].

Definition classifier_match_ana : match_dict 1 :=
  ClassifierMatch 1 "Ana" None.

(** A frame in which the model finds no face, and what the loop shows
    for it. *)
Definition no_face_frame : frame 1 :=
  Frame 1 (RepresentRaised true) 480 640 [] 0 0.

Definition no_face_output : frame_output 1 :=
  FrameOutput 1 None NoFaceText None None.

(** Two frames of subject 1, three seconds apart, with crops that differ,
    and what the loop shows and logs for them in [stale_session]. *)
Definition first_sighting : frame 1 :=
  Frame 1 (RepresentOk [Rep 1 query_1 (Some (FacialArea 10 10 100 100))])
        480 640 (flat_crop 128) 0 0.

Definition second_sighting : frame 1 :=
  Frame 1 (RepresentOk [Rep 1 query_1 (Some (FacialArea 10 10 100 100))])
        480 640 (flat_crop 130) 3000000 0.

Definition first_output : frame_output 1 :=
  FrameOutput 1 (Some (DistanceMatch ana)) (ProbaText (Some "Ana") 0.95%R)
              (Some (10, 10, 100, 100)) None.

Definition second_output : frame_output 1 :=
  FrameOutput 1 (Some (DistanceMatch ana)) (ProbaText (Some "Ana") 0.95%R)
              (Some (10, 10, 100, 100))
              (Some (AccessEvent 1 (DistanceMatch ana)
                                 (example_strftime 3000000))).

(** The same registry and references without a trained classifier. *)
Definition plain_session : session 1 :=
  open_session DEFAULT_THRESHOLD [ana; bruno] users_ana_bruno None.

(** The session opened on the same files after subject 1 was deleted from
    the registry. *)
Definition session_without_ana : session 1 :=
  open_session DEFAULT_THRESHOLD [ana; bruno]
               (load_users (delete_user 1 true world_ana_bruno).1)
               (Some (ClassifierBundle 1 (Some stale_classifier) ∅)).

(** A descriptor at distance 0 of [bruno] and 1.2 of [ana], and a frame
    that shows a face with a given descriptor, crop and instant. *)
Definition query_2 : vec R 1 := [# (- (2 / 3) * 1e-8)%R ].

Definition sighting (q : vec R 1) (crop : Z) (now : Z) : frame 1 :=
  Frame 1 (RepresentOk [Rep 1 q (Some (FacialArea 10 10 100 100))])
        480 640 (flat_crop crop) now 0.

(** Subjects 1 and 2 seen in turn, a tenth of a second apart. *)
Definition alternating_sightings : list (Z * frame 1) :=
  [(1, sighting query_1 128 0); (2, sighting query_2 130 100000);
   (1, sighting query_1 128 200000); (2, sighting query_2 130 300000)].

(** Nine reads of a live face (the crops alternate), as the enrollment
    loop needs them for its first capture; the descriptors play no part
    and have dimension 0. *)
Definition live_read (v : Z) : option (frame 0) :=
  Some (Frame 0 (RepresentOk [Rep 0 [#] (Some (FacialArea 10 10 100 100))])
              480 640 (flat_crop v) 0 0).

Definition nine_live_reads : list (option (frame 0)) :=
  [live_read 128; live_read 130; live_read 128; live_read 130;
   live_read 128; live_read 130; live_read 128; live_read 130;
   live_read 128].

(** Two person directories of a dataset; subject Ana is registered
    already and has an image. *)
Definition lfw_people : list (string * list string) :=
  [("Ana", ["Ana_0001.jpg"; "Ana_0002.jpg"]);
   ("Zoe", ["Zoe_0001.jpg"; "Zoe_0002.jpg"])].

(** * Properties *)

(** ** The distance matcher *)

Section DistanceMatcher.

Context {D : nat}.

Lemma argmin_from_spec (l pre : list R) (best : R) (besti : nat) :
  pre !! besti = Some best →
  (∀ x, x ∈ pre → (best <= x)%R) →
  (∀ j y, (j < besti)%nat → pre !! j = Some y → (best < y)%R) →
  ∃ d, (pre ++ l) !! Np.argmin_from best besti (length pre) l = Some d
       ∧ (∀ x, x ∈ pre ++ l → (d <= x)%R)
       ∧ (∀ j y, (j < Np.argmin_from best besti (length pre) l)%nat →
                 (pre ++ l) !! j = Some y → (d < y)%R).
Proof.
  revert pre best besti.
  induction l as [|x l IH]; intros pre best besti Hb Hmin Hfirst; simpl.
  - rewrite app_nil_r. eauto.
  - assert (Hlen : length (pre ++ [x]) = S (length pre)).
    { rewrite length_app. simpl. lia. }
    replace (pre ++ x :: l) with ((pre ++ [x]) ++ l)
      by (rewrite <- app_assoc; reflexivity).
    rewrite <- Hlen.
    destruct (Rlt_dec x best) as [Hlt|Hge].
    + replace (length pre) with (length pre + 0)%nat at 1 by lia.
      apply IH.
      * replace (length pre + 0)%nat with (length pre) by lia.
        apply list_lookup_middle. reflexivity.
      * intros z Hz. apply elem_of_app in Hz as [Hz|Hz].
        -- specialize (Hmin z Hz). lra.
        -- apply list_elem_of_singleton in Hz. subst. lra.
      * intros j y Hj Hy.
        rewrite lookup_app_l in Hy by lia.
        assert (y ∈ pre) by (eapply list_elem_of_lookup_2; eauto).
        specialize (Hmin y H). lra.
    + apply IH.
      * rewrite lookup_app_l; [assumption|].
        apply lookup_lt_Some in Hb. lia.
      * intros z Hz. apply elem_of_app in Hz as [Hz|Hz].
        -- auto.
        -- apply list_elem_of_singleton in Hz. subst. lra.
      * intros j y Hj Hy.
        apply lookup_lt_Some in Hb.
        rewrite lookup_app_l in Hy by lia. eauto.
Qed.

Lemma argmin_spec (l : list R) :
  l ≠ [] →
  ∃ d, l !! Np.argmin l = Some d
       ∧ (∀ x, x ∈ l → (d <= x)%R)
       ∧ (∀ j y, (j < Np.argmin l)%nat → l !! j = Some y → (d < y)%R).
Proof.
  destruct l as [|x l]; [congruence|]. intros _.
  unfold Np.argmin.
  destruct (argmin_from_spec l [x] x 0) as (d & H1 & H2 & H3).
  - reflexivity.
  - intros z Hz. apply list_elem_of_singleton in Hz. subst. lra.
  - intros j y Hj. lia.
  - exists d. simpl in *. auto.
Qed.

Lemma normalized_distances_spec
    (query : vec R D) (embeddings : list (embedding_record D)) :
  normalized_distances query embeddings = map (spec_distance query) embeddings.
Proof.
  unfold normalized_distances.
  induction embeddings as [|e es IH]; simpl; [reflexivity|].
  f_equal. exact IH.
Qed.

(** C3. For a non-empty reference list the distance matcher selects the
    reference whose normalised Euclidean distance to the normalised query
    is smallest (the first one among equals), and returns it exactly when
    that distance is strictly below the threshold; the distance is returned
    in both cases. With two references at distances 0.3 and 0.9 and the
    default threshold 0.6 it returns the first with distance 0.3. *)
Theorem find_best_match_nearest
    (query : vec R D) (embeddings : list (embedding_record D))
    (threshold : R) :
  embeddings ≠ [] →
  (∃ (idx : nat) (best : embedding_record D),
     embeddings !! idx = Some best
     ∧ (∀ e, e ∈ embeddings →
             (spec_distance query best <= spec_distance query e)%R)
     ∧ (∀ j e, (j < idx)%nat → embeddings !! j = Some e →
               (spec_distance query best < spec_distance query e)%R)
     ∧ ((spec_distance query best < threshold)%R →
        _find_best_match query embeddings threshold
        = (Some best, Some (spec_distance query best)))
     ∧ (¬ (spec_distance query best < threshold)%R →
        _find_best_match query embeddings threshold
        = (None, Some (spec_distance query best))))
  ∧ (∀ first second,
       embeddings = [first; second] →
       e_id first = Some 1 → e_id second = Some 2 →
       spec_distance query first = 0.3%R →
       spec_distance query second = 0.9%R →
       _find_best_match query embeddings DEFAULT_THRESHOLD
       = (Some first, Some 0.3%R)).
Proof.
  intros Hne. split.
  - destruct (argmin_spec (map (spec_distance query) embeddings))
      as (d & Hd & Hmin & Hfirst).
    { destruct embeddings; [congruence|discriminate]. }
    set (idx := Np.argmin (map (spec_distance query) embeddings)) in *.
    change (map (spec_distance query) embeddings)
      with (spec_distance query <$> embeddings) in Hd, Hmin, Hfirst.
    rewrite list_lookup_fmap in Hd.
    destruct (embeddings !! idx) as [best|] eqn:Hbest; [|discriminate].
    simpl in Hd. injection Hd as Hd.
    assert (Hres :
      _find_best_match query embeddings threshold
      = (if Rlt_dec d threshold then (Some best, Some d) else (None, Some d))).
    { unfold _find_best_match.
      destruct embeddings as [|e0 es]; [congruence|].
      rewrite normalized_distances_spec. fold idx.
      rewrite nth_lookup.
      change (map (spec_distance query) (e0 :: es))
        with (spec_distance query <$> (e0 :: es)).
      rewrite list_lookup_fmap, Hbest. simpl. rewrite Hd.
      destruct (Rlt_dec d threshold); reflexivity. }
    exists idx, best. rewrite Hd.
    split; [exact Hbest|]. split; [|split; [|split]].
    + intros e He. apply Hmin. apply list_elem_of_fmap. eauto.
    + intros j e Hj He. apply (Hfirst j); [assumption|].
      rewrite list_lookup_fmap, He. reflexivity.
    + intros Hlt. rewrite Hres.
      destruct (Rlt_dec d threshold); [reflexivity|contradiction].
    + intros Hge. rewrite Hres.
      destruct (Rlt_dec d threshold); [contradiction|reflexivity].
  - intros first second -> _ _ H1 H2.
    unfold _find_best_match. rewrite normalized_distances_spec. simpl.
    rewrite H1, H2. unfold Np.argmin. simpl.
    destruct (Rlt_dec 0.9 0.3) as [Hbad|_]; [lra|]. simpl.
    unfold DEFAULT_THRESHOLD.
    destruct (Rlt_dec 0.3 0.6) as [_|Hbad]; [reflexivity|lra].
Qed.

End DistanceMatcher.

Lemma norm_singleton (x : R) : (0 <= x)%R → Np.norm [# x ] = x.
Proof.
  intros Hx. unfold Np.norm. simpl. rewrite Rplus_0_r.
  apply sqrt_square. exact Hx.
Qed.

Lemma norm_singleton_neg (x : R) : (x <= 0)%R → Np.norm [# x ] = (- x)%R.
Proof.
  intros Hx. unfold Np.norm. simpl. rewrite Rplus_0_r.
  replace (x * x)%R with ((- x) * (- x))%R by ring.
  apply sqrt_square. lra.
Qed.

Lemma distance_query_ana : spec_distance query_1 ana = 0.3%R.
Proof.
  unfold spec_distance, spec_normalize, query_1, ana. simpl.
  rewrite (norm_singleton 4e-8), (norm_singleton 1e-8) by lra.
  replace (4e-8 / (4e-8 + 1e-8) - 1e-8 / (1e-8 + 1e-8))%R with 0.3%R
    by (field_simplify; lra).
  rewrite norm_singleton by lra. reflexivity.
Qed.

Lemma distance_query_bruno : spec_distance query_1 bruno = 0.9%R.
Proof.
  unfold spec_distance, spec_normalize, query_1, bruno. simpl.
  rewrite (norm_singleton 1e-8) by lra.
  rewrite (norm_singleton_neg (- (2 / 3) * 1e-8)) by lra.
  replace (- (2 / 3) * 1e-8 / (- (- (2 / 3) * 1e-8) + 1e-8)
           - 1e-8 / (1e-8 + 1e-8))%R with (- 0.9)%R
    by (field_simplify; lra).
  rewrite norm_singleton_neg by lra. lra.
Qed.

Lemma find_best_match_nearest_witness :
  [ana; bruno] ≠ []
  ∧ _find_best_match query_1 [ana; bruno] DEFAULT_THRESHOLD
    = (Some ana, Some 0.3%R).
Proof.
  split; [discriminate|].
  apply (proj2 (find_best_match_nearest query_1 [ana; bruno] DEFAULT_THRESHOLD
                  ltac:(discriminate))
               ana bruno eq_refl eq_refl eq_refl
               distance_query_ana distance_query_bruno).
Defined.

Lemma find_best_match_ana_bruno :
  _find_best_match query_1 [ana; bruno] DEFAULT_THRESHOLD
  = (Some ana, Some 0.3%R).
Proof.
  unfold _find_best_match. rewrite normalized_distances_spec. simpl.
  rewrite distance_query_ana, distance_query_bruno.
  unfold Np.argmin. simpl.
  destruct (Rlt_dec 0.9 0.3) as [Hbad|_]; [lra|]. simpl.
  unfold DEFAULT_THRESHOLD.
  destruct (Rlt_dec 0.3 0.6) as [_|Hbad]; [reflexivity|lra].
Qed.

(** ** The match engine *)

Section MatchEngine.

Context {D : nat}.

Lemma argmax_from_spec (l pre : list R) (best : R) (besti : nat) :
  pre !! besti = Some best →
  (∀ x, x ∈ pre → (x <= best)%R) →
  ∃ d, (pre ++ l) !! Np.argmax_from best besti (length pre) l = Some d
       ∧ (∀ x, x ∈ pre ++ l → (x <= d)%R).
Proof.
  revert pre best besti.
  induction l as [|x l IH]; intros pre best besti Hb Hmax; simpl.
  - rewrite app_nil_r. eauto.
  - assert (Hlen : length (pre ++ [x]) = S (length pre)).
    { rewrite length_app. simpl. lia. }
    replace (pre ++ x :: l) with ((pre ++ [x]) ++ l)
      by (rewrite <- app_assoc; reflexivity).
    rewrite <- Hlen.
    destruct (Rlt_dec best x) as [Hlt|Hge].
    + replace (length pre) with (length pre + 0)%nat at 1 by lia.
      apply IH.
      * replace (length pre + 0)%nat with (length pre) by lia.
        apply list_lookup_middle. reflexivity.
      * intros z Hz. apply elem_of_app in Hz as [Hz|Hz].
        -- specialize (Hmax z Hz). lra.
        -- apply list_elem_of_singleton in Hz. subst. lra.
    + apply IH.
      * rewrite lookup_app_l; [assumption|].
        apply lookup_lt_Some in Hb. lia.
      * intros z Hz. apply elem_of_app in Hz as [Hz|Hz].
        -- auto.
        -- apply list_elem_of_singleton in Hz. subst. lra.
Qed.

Lemma argmax_spec (l : list R) :
  l ≠ [] → ∀ x, x ∈ l → (x <= nth (Np.argmax l) l 0%R)%R.
Proof.
  destruct l as [|a l]; [congruence|]. intros _.
  destruct (argmax_from_spec l [a] a 0) as (d & H1 & H2).
  - reflexivity.
  - intros z Hz. apply list_elem_of_singleton in Hz. subst. lra.
  - intros x Hx. rewrite nth_lookup. unfold Np.argmax.
    simpl in H1. rewrite H1. simpl. apply H2. exact Hx.
Qed.

Lemma distance_path_not_classifier
    (ss : session D) (q : vec R D) (id : Z) (name : string)
    (cpf : option string) :
  (distance_path ss q).1 ≠ Some (ClassifierMatch id name cpf).
Proof.
  unfold distance_path.
  destruct (filtered_embeddings ss) as [|e0 es]; [discriminate|].
  destruct (_find_best_match q _ _) as [[r|] dist]; discriminate.
Qed.

Lemma match_engine_fall_through (ss : session D) (q : vec R D) :
  (classifier_path ss q).1 = None →
  er_match (match_engine ss q) = (distance_path ss q).1
  ∧ er_dist (match_engine ss q) = (distance_path ss q).2.
Proof.
  unfold match_engine.
  destruct (classifier_path ss q) as [m p]. simpl. intros ->.
  destruct (distance_path ss q). auto.
Qed.

Lemma active_ids_registry (users : list user) (id : Z) :
  id ∈ active_ids users ↔ Some id ∈ map user_id users.
Proof.
  unfold active_ids. rewrite elem_of_list_to_set, list_elem_of_omap.
  change (map user_id users) with (user_id <$> users).
  rewrite list_elem_of_fmap. split.
  - intros (u & Hu & Hid). eauto.
  - intros (u & Hid & Hu). eauto.
Qed.

Lemma open_session_references
    (threshold : R) (embeddings : list (embedding_record D))
    (users : list user) (bundle : option (classifier_bundle D)) :
  filtered_embeddings (open_session threshold embeddings users bundle)
  = List.filter (fun e => match e_id e with
                          | Some sid =>
                              bool_decide (Some sid ∈ map user_id users)
                          | None => false
                          end)
                embeddings.
Proof.
  unfold open_session, filter_embeddings. cbn [filtered_embeddings].
  apply List.filter_ext. intros e. unfold is_active_embedding.
  destruct (e_id e) as [sid|]; [|reflexivity].
  apply bool_decide_ext, active_ids_registry.
Qed.

Lemma open_session_distance_path
    (threshold : R) (embeddings : list (embedding_record D))
    (users : list user) (bundle : option (classifier_bundle D))
    (q : vec R D) :
  distance_path (open_session threshold embeddings users bundle) q
  = (DistanceMatch <$>
       (_find_best_match q (filtered_embeddings
                               (open_session threshold embeddings users bundle))
                         threshold).1,
     (_find_best_match q (filtered_embeddings
                            (open_session threshold embeddings users bundle))
                       threshold).2).
Proof.
  unfold distance_path.
  change (session_threshold (open_session threshold embeddings users bundle))
    with threshold.
  destruct (filtered_embeddings _) as [|e0 es]; [reflexivity|].
  destruct (_find_best_match q (e0 :: es) threshold) as [e dist].
  reflexivity.
Qed.

Lemma match_engine_best_proba (ss : session D) (q : vec R D) :
  er_best_proba (match_engine ss q) = (classifier_path ss q).2.
Proof.
  unfold match_engine. destruct (classifier_path ss q) as [[md|] p];
    [reflexivity|].
  destruct (distance_path ss q). reflexivity.
Qed.


End MatchEngine.

Lemma stale_session_active : active_user_ids stale_session = {[1; 2]}.
Proof.
  unfold stale_session, open_session, active_ids, users_ana_bruno. simpl.
  set_solver.
Qed.


(** ** Active subjects only *)

Section ActiveSubjects.

Context {D : nat}.
Variable strftime : Z → string.

Lemma classifier_path_active
    (ss : session D) (q : vec R D) (md : match_dict D) :
  (classifier_path ss q).1 = Some md → has_active_id (active_user_ids ss) md.
Proof.
  unfold classifier_path.
  destruct (session_classifier ss) as [clf|]; [|discriminate].
  destruct (predict_proba clf q) as [[|p ps]|]; try discriminate.
  destruct (classes_ clf !! _) as [predicted_id|]; [|discriminate].
  destruct (Rge_dec _ _); [|discriminate].
  destruct (decide (predicted_id ∈ active_user_ids ss)) as [Hin|];
    [|discriminate].
  simpl. intros [= <-]. exists predicted_id. auto.
Qed.

Lemma find_best_match_elem
    (q : vec R D) (embeddings : list (embedding_record D)) (threshold : R)
    (e : embedding_record D) :
  (_find_best_match q embeddings threshold).1 = Some e → e ∈ embeddings.
Proof.
  unfold _find_best_match.
  destruct embeddings as [|e0 es]; [discriminate|].
  destruct (Rlt_dec _ _); [|discriminate].
  simpl. apply list_elem_of_lookup_2.
Qed.

Lemma filter_embeddings_active
    (active : gset Z) (embeddings : list (embedding_record D))
    (e : embedding_record D) :
  e ∈ filter_embeddings active embeddings →
  ∃ id, e_id e = Some id ∧ id ∈ active.
Proof.
  unfold filter_embeddings. rewrite list_elem_of_In, filter_In.
  intros [_ He]. unfold is_active_embedding in He.
  destruct (e_id e) as [sid|]; [|discriminate].
  apply bool_decide_eq_true in He. eauto.
Qed.

Lemma distance_path_active
    (threshold : R) (embeddings : list (embedding_record D))
    (users : list user) (bundle : option (classifier_bundle D))
    (q : vec R D) (md : match_dict D) :
  (distance_path (open_session threshold embeddings users bundle) q).1
  = Some md →
  has_active_id (active_ids users) md.
Proof.
  unfold distance_path.
  cbn [filtered_embeddings session_threshold open_session].
  destruct (filter_embeddings _ _) as [|e0 es] eqn:Hf; [discriminate|].
  destruct (_find_best_match q (e0 :: es) threshold) as [[e|] dist] eqn:Hm;
    [|discriminate].
  simpl. intros [= <-].
  apply (filter_embeddings_active (active_ids users) embeddings).
  rewrite Hf.
  apply (find_best_match_elem q _ threshold).
  rewrite Hm. reflexivity.
Qed.

Lemma match_engine_active
    (threshold : R) (embeddings : list (embedding_record D))
    (users : list user) (bundle : option (classifier_bundle D))
    (q : vec R D) (md : match_dict D) :
  er_match (match_engine (open_session threshold embeddings users bundle) q)
  = Some md →
  has_active_id (active_ids users) md.
Proof.
  unfold match_engine.
  destruct (classifier_path _ q) as [[m|] p] eqn:Hc; simpl.
  - intros [= <-].
    apply (classifier_path_active
             (open_session threshold embeddings users bundle) q).
    rewrite Hc. reflexivity.
  - destruct (distance_path _ q) as [m' dist] eqn:Hd. simpl. intros ->.
    apply (distance_path_active threshold embeddings users bundle q).
    rewrite Hd. reflexivity.
Qed.

Lemma recheck_active_sound
    (active : gset Z) (m : option (match_dict D)) (md : match_dict D) :
  recheck_active active m = Some md → has_active_id active md.
Proof.
  unfold recheck_active. destruct m as [md'|]; [|discriminate].
  destruct (match_id md') as [mid|] eqn:Hid; [|discriminate].
  destruct (decide (mid ∈ active)); [|discriminate].
  intros [= <-]. exists mid. auto.
Qed.

Lemma recheck_active_discards
    (active : gset Z) (md : match_dict D) :
  ¬ has_active_id active md → recheck_active active (Some md) = None.
Proof.
  intros Hnot. unfold recheck_active.
  destruct (match_id md) as [mid|] eqn:Hid; [|reflexivity].
  destruct (decide (mid ∈ active)); [|reflexivity].
  exfalso. apply Hnot. exists mid. auto.
Qed.

Lemma process_face_access
    (st : loop_state) (f : frame D) (r : rep D) (m : option (match_dict D))
    (ev : access_event D) :
  (process_face strftime st f r m).2 = Some ev → m = Some (ev_user ev).
Proof.
  unfold process_face.
  destruct (rep_facial_area r) as [fa|]; [|discriminate].
  destruct (clamp_roi f fa) as [[[[x y] x2] y2]|]; [|discriminate].
  destruct (liveness_filter _ _ _) as [[prev sf] live].
  destruct m as [md|]; [|discriminate].
  destruct live; [|discriminate].
  destruct (stability_gate _ _ _) as [st2 confirmed].
  destruct confirmed; [|discriminate].
  simpl. intros [= <-]. reflexivity.
Qed.

Lemma process_frame_access
    (ss : session D) (st : loop_state) (f : frame D) (ev : access_event D) :
  out_access (process_frame strftime ss st f).2 = Some ev →
  ∃ q, er_match (match_engine ss q) = Some (ev_user ev).
Proof.
  unfold process_frame.
  destruct (frame_represent f) as [nf|[|r rs]]; try discriminate.
  destruct (process_face strftime st f r _) as [[[st1 is_live] box] access]
    eqn:Hface.
  assert (Hacc : access = Some ev →
                 er_match (match_engine ss (rep_embedding r))
                 = Some (ev_user ev)).
  { intros ->. apply (process_face_access st f r). rewrite Hface.
    reflexivity. }
  destruct (recheck_active _ _); simpl; eauto.
Qed.

Lemma process_frame_match
    (ss : session D) (st : loop_state) (f : frame D) (md : match_dict D) :
  out_match (process_frame strftime ss st f).2 = Some md →
  has_active_id (active_user_ids ss) md.
Proof.
  unfold process_frame.
  destruct (frame_represent f) as [nf|[|r rs]]; try discriminate.
  destruct (process_face strftime st f r _) as [[[st1 is_live] box] access].
  destruct (recheck_active _ _) as [md'|] eqn:Hre; simpl; [|discriminate].
  intros [= <-]. eapply recheck_active_sound. exact Hre.
Qed.

Lemma camera_loop_outputs
    (P : frame_output D → Prop) (ss : session D) :
  (∀ st f, P (process_frame strftime ss st f).2) →
  ∀ reads st out, out ∈ (camera_loop strftime ss st reads).2 → P out.
Proof.
  intros Hstep. induction reads as [|[f|] rest IH]; intros st out; simpl.
  - intros Hin. apply elem_of_nil in Hin. contradiction.
  - specialize (Hstep st f).
    destruct (process_frame strftime ss st f) as [st1 o] eqn:Hpf.
    simpl in Hstep.
    destruct (is_quit_key (frame_key f)).
    + simpl. intros Hin. apply list_elem_of_singleton in Hin. subst. exact Hstep.
    + specialize (IH st1 out).
      destruct (camera_loop strftime ss st1 rest) as [st2 outs]. simpl in *.
      intros Hin. apply elem_of_cons in Hin as [->|Hin]; auto.
  - intros Hin. apply elem_of_nil in Hin. contradiction.
Qed.

(** C1. In a recognition session no match of a subject outside the active
    set is acted upon: the classifier path and the distance path produce
    matches of active subjects only, the re-check discards a match whose id
    is missing or inactive, the match a frame displays has an active id,
    and so has every access event the session logs. *)
Theorem only_active_subjects_acted_upon
    (threshold : R) (camera : option (list (option (frame D))))
    (embeddings : list (embedding_record D)) (users : list user)
    (bundle : option (classifier_bundle D)) :
  (∀ q md,
     (classifier_path (open_session threshold embeddings users bundle) q).1
     = Some md → has_active_id (active_ids users) md)
  ∧ (∀ q md,
       (distance_path (open_session threshold embeddings users bundle) q).1
       = Some md → has_active_id (active_ids users) md)
  ∧ (∀ md : match_dict D,
       ¬ has_active_id (active_ids users) md →
       recheck_active (active_ids users) (Some md) = None)
  ∧ (∀ out md,
       out ∈ recognize_from_camera strftime threshold camera embeddings
                                   users bundle →
       out_match out = Some md → has_active_id (active_ids users) md)
  ∧ (∀ ev,
       ev ∈ logged_events
              (recognize_from_camera strftime threshold camera embeddings
                                     users bundle) →
       has_active_id (active_ids users) (ev_user ev)).
Proof.
  split; [|split; [|split; [|split]]].
  - intros q md. apply classifier_path_active.
  - intros q md. apply distance_path_active.
  - intros md. apply recheck_active_discards.
  - intros out md Hin. unfold recognize_from_camera in Hin.
    destruct camera as [reads|];
      [|apply elem_of_nil in Hin; contradiction].
    revert md.
    apply (camera_loop_outputs
             (λ out, ∀ md, out_match out = Some md →
                           has_active_id (active_ids users) md)
             (open_session threshold embeddings users bundle))
      with (reads := reads) (st := initial_state); [|exact Hin].
    intros st f md. apply process_frame_match.
  - intros ev Hin. unfold logged_events in Hin.
    apply list_elem_of_omap in Hin as (out & Hin & Hacc).
    unfold recognize_from_camera in Hin.
    destruct camera as [reads|];
      [|apply elem_of_nil in Hin; contradiction].
    revert ev Hacc.
    apply (camera_loop_outputs
             (λ out, ∀ ev, out_access out = Some ev →
                           has_active_id (active_ids users) (ev_user ev))
             (open_session threshold embeddings users bundle))
      with (reads := reads) (st := initial_state); [|exact Hin].
    intros st f ev Hacc.
    apply process_frame_access in Hacc as [q Hq].
    apply (match_engine_active threshold embeddings users bundle q).
    exact Hq.
Qed.

End ActiveSubjects.

Lemma only_active_subjects_acted_upon_witness :
  recheck_active (active_ids users_ana_bruno)
                 (Some (ClassifierMatch (D := 1) 3 "Carla" None)) = None.
Proof.
  apply (proj1 (proj2 (proj2
           (only_active_subjects_acted_upon example_strftime DEFAULT_THRESHOLD
              None [ana; bruno] users_ana_bruno None)))).
  intros (id & Hid & Hact). injection Hid as <-.
  unfold active_ids in Hact. apply elem_of_list_to_set in Hact.
  simpl in Hact.
  apply elem_of_cons in Hact as [Hact|Hact]; [discriminate|].
  apply elem_of_cons in Hact as [Hact|Hact]; [discriminate|].
  apply elem_of_nil in Hact. exact Hact.
Defined.

(** ** The stability gate *)

Section StabilityGate.

Lemma gate_step_last (st : loop_state) (o : gate_obs) :
  ((gate_step st o).2 = []
   ∧ last_recognized_user_id (gate_step st o).1 = last_recognized_user_id st)
  ∨ (∃ id, (gate_step st o).2 = [id]
           ∧ last_recognized_user_id (gate_step st o).1 = Some id
           ∧ last_recognized_user_id st ≠ Some id).
Proof.
  destruct o as [id now|]; simpl; [|left; auto].
  unfold stability_gate.
  destruct (decide (pending_user_id st ≠ Some id)); simpl; [left; auto|].
  destruct (pending_start_time st) as [t0|]; simpl; [|left; auto].
  destruct (STABILITY_WINDOW <=? now - t0); simpl; [|left; auto].
  destruct (bool_decide (last_recognized_user_id st = Some id)) eqn:Hl;
    simpl; [left; auto|].
  right. exists id. apply bool_decide_eq_false in Hl. auto.
Qed.

Lemma gate_run_cons (st : loop_state) (o : gate_obs) (rest : list gate_obs) :
  gate_run st (o :: rest)
  = ((gate_run (gate_step st o).1 rest).1,
     (gate_step st o).2 ++ (gate_run (gate_step st o).1 rest).2).
Proof.
  simpl. destruct (gate_step st o) as [st1 ev1]. simpl.
  destruct (gate_run st1 rest) as [st2 ev2]. reflexivity.
Qed.

(** Two consecutive events never carry the same id, and the first event of
    a run differs from the id confirmed before the run. *)
Lemma gate_run_no_repeat (stream : list gate_obs) :
  ∀ st,
    (∀ i A, (gate_run st stream).2 !! i = Some A →
            (gate_run st stream).2 !! S i ≠ Some A)
    ∧ (∀ A, (gate_run st stream).2 !! 0%nat = Some A →
            last_recognized_user_id st ≠ Some A).
Proof.
  induction stream as [|o rest IH]; intros st.
  - simpl. split; intros; discriminate.
  - rewrite gate_run_cons. simpl.
    destruct (IH (gate_step st o).1) as [IHadj IHhead].
    destruct (gate_step_last st o) as [[Hev Hlast]|(id & Hev & Hlast & Hne)];
      rewrite Hev; simpl.
    + rewrite Hlast in IHhead. auto.
    + split.
      * intros [|i] A; simpl.
        -- intros [= <-] Hnext. apply (IHhead id Hnext). exact Hlast.
        -- apply IHadj.
      * intros A [= <-]. exact Hne.
Qed.

(** While the pending id is [A] since [t0], a stream of [A] confirms [A]
    once if it reaches the window and [A] was not the last confirmed id,
    and never otherwise. *)
Lemma gate_run_same (A t0 : Z) (stream : list gate_obs) :
  ∀ st,
    pending_user_id st = Some A → pending_start_time st = Some t0 →
    all_accepted A stream →
    (last_recognized_user_id st = Some A → (gate_run st stream).2 = [])
    ∧ (last_recognized_user_id st ≠ Some A →
       (∃ t, Accepted A t ∈ stream ∧ STABILITY_WINDOW <= t - t0) →
       (gate_run st stream).2 = [A])
    ∧ (last_recognized_user_id st ≠ Some A →
       (∀ t, Accepted A t ∈ stream → t - t0 < STABILITY_WINDOW) →
       (gate_run st stream).2 = []).
Proof.
  induction stream as [|o rest IH]; intros st Hp Ht Hall.
  - simpl. repeat split; auto.
    intros _ (t & Hin & _). apply elem_of_nil in Hin. contradiction.
  - apply Forall_cons in Hall as [[t ->] Hall].
    rewrite gate_run_cons. simpl. unfold stability_gate.
    destruct (decide (pending_user_id st ≠ Some A)) as [Hbad|_];
      [contradiction|].
    rewrite Ht.
    destruct (STABILITY_WINDOW <=? t - t0) eqn:Hw; simpl.
    + destruct (bool_decide (last_recognized_user_id st = Some A)) eqn:Hl;
        simpl.
      * apply bool_decide_eq_true in Hl.
        destruct (IH st Hp Ht Hall) as (IH1 & _ & _).
        split; [auto|]. split; intros Hne; contradiction.
      * apply bool_decide_eq_false in Hl.
        destruct (IH (set_last st (Some A)) Hp Ht Hall) as (IH1 & _ & _).
        rewrite (IH1 eq_refl).
        split; [intros; contradiction|]. split; [reflexivity|].
        intros _ Hshort. apply Z.leb_le in Hw.
        specialize (Hshort t ltac:(left)). lia.
    + apply Z.leb_gt in Hw.
      destruct (IH st Hp Ht Hall) as (IH1 & IH2 & IH3).
      split; [exact IH1|]. split.
      * intros Hne (t' & Hin & Hlate). apply IH2; [exact Hne|].
        apply elem_of_cons in Hin as [[= ->]|Hin]; [lia|eauto].
      * intros Hne Hshort. apply IH3; [exact Hne|].
        intros t' Hin. apply Hshort. right. exact Hin.
Qed.

Lemma gate_run_short (stream : list gate_obs) :
  ∀ st, pending_short st stream → short_runs stream →
        (gate_run st stream).2 = [].
Proof.
  induction stream as [|o rest IH]; intros st Hp Hs; [reflexivity|].
  rewrite gate_run_cons. destruct o as [b t|]; simpl in *.
  - destruct Hs as [Hrun Hs]. unfold stability_gate.
    destruct (decide (pending_user_id st ≠ Some b)) as [Hne|Heq]; simpl.
    + apply IH; [|exact Hs]. unfold pending_short. simpl. exact Hrun.
    + apply dec_stable in Heq. unfold pending_short in Hp. rewrite Heq in Hp.
      destruct (pending_start_time st) as [t0|] eqn:Ht; simpl.
      * simpl in Hp.
        destruct (decide (b = b)) as [_|Hbad]; [|contradiction].
        destruct Hp as [Hlt Hp].
        destruct (STABILITY_WINDOW <=? t - t0) eqn:Hw;
          [apply Z.leb_le in Hw; lia|].
        simpl. apply IH; [|exact Hs].
        unfold pending_short. rewrite Heq, Ht. exact Hp.
      * apply IH; [|exact Hs]. unfold pending_short. rewrite Heq, Ht. exact I.
  - apply IH; [|exact Hs]. unfold pending_short. simpl. exact I.
Qed.

End StabilityGate.

(** ** The gate inside the session *)

Section SessionGate.

Context {D : nat}.
Variable strftime : Z → string.

Lemma no_repeat_between (l : list Z) :
  (∀ i A, l !! i = Some A → l !! S i ≠ Some A) →
  ∀ (i j : nat) A,
    (i < j)%nat → l !! i = Some A → l !! j = Some A →
    ∃ k B, (i < k < j)%nat ∧ l !! k = Some B ∧ B ≠ A.
Proof.
  intros Hadj i j A Hij Hi Hj. specialize (Hadj i A Hi).
  destruct (l !! S i) as [B|] eqn:Hk.
  - exists (S i), B. split; [|split; [exact Hk|congruence]].
    assert (S i ≠ j) by (intros <-; congruence). lia.
  - exfalso. apply lookup_ge_None in Hk. apply lookup_lt_Some in Hj. lia.
Qed.

Lemma stability_gate_last (st : loop_state) (cur : option Z) (now : Z) :
  ((stability_gate st cur now).2 = false
   ∧ last_recognized_user_id (stability_gate st cur now).1
     = last_recognized_user_id st)
  ∨ (∃ id, cur = Some id
           ∧ (stability_gate st cur now).2 = true
           ∧ last_recognized_user_id (stability_gate st cur now).1 = Some id
           ∧ last_recognized_user_id st ≠ Some id).
Proof.
  unfold stability_gate. destruct cur as [id|]; simpl; [|left; auto].
  destruct (decide (pending_user_id st ≠ Some id)); simpl; [left; auto|].
  destruct (pending_start_time st) as [t0|]; simpl; [|left; auto].
  destruct (STABILITY_WINDOW <=? now - t0); simpl; [|left; auto].
  destruct (bool_decide (last_recognized_user_id st = Some id)) eqn:Hl;
    simpl; [left; auto|].
  right. exists id. apply bool_decide_eq_false in Hl. auto.
Qed.

Lemma process_face_last
    (st : loop_state) (f : frame D) (r : rep D) (m : option (match_dict D)) :
  ((process_face strftime st f r m).2 = None
   ∧ last_recognized_user_id (process_face strftime st f r m).1.1.1
     = last_recognized_user_id st)
  ∨ (∃ ev id,
       (process_face strftime st f r m).2 = Some ev
       ∧ match_id (ev_user ev) = Some id
       ∧ last_recognized_user_id (process_face strftime st f r m).1.1.1
         = Some id
       ∧ last_recognized_user_id st ≠ Some id).
Proof.
  unfold process_face.
  destruct (rep_facial_area r) as [fa|]; [|left; auto].
  destruct (clamp_roi f fa) as [[[[x y] x2] y2]|]; [|left; auto].
  destruct (liveness_filter _ _ _) as [[prev sf] live].
  destruct m as [md|]; [|left; auto].
  destruct live; [|left; auto].
  destruct (stability_gate_last (set_liveness st prev sf) (match_id md)
                                (frame_now f))
    as [[Hno Hlast]|(id & Hid & Hyes & Hlast & Hne)];
    destruct (stability_gate _ _ _) as [st2 confirmed]; simpl in *; subst.
  - left. auto.
  - right. eauto 10.
Qed.

Lemma process_frame_last
    (ss : session D) (st : loop_state) (f : frame D) :
  (out_access (process_frame strftime ss st f).2 = None
   ∧ last_recognized_user_id (process_frame strftime ss st f).1
     = last_recognized_user_id st)
  ∨ (∃ ev id,
       out_access (process_frame strftime ss st f).2 = Some ev
       ∧ match_id (ev_user ev) = Some id
       ∧ last_recognized_user_id (process_frame strftime ss st f).1 = Some id
       ∧ last_recognized_user_id st ≠ Some id).
Proof.
  unfold process_frame.
  destruct (frame_represent f) as [nf|[|r rs]]; [left; auto|left; auto|].
  pose proof (process_face_last st f r
                (er_match (match_engine ss (rep_embedding r)))) as Hface.
  destruct (process_face strftime st f r _) as [[[st1 is_live] box] access].
  simpl in Hface.
  destruct (recheck_active _ _); simpl; exact Hface.
Qed.

Lemma camera_loop_cons
    (ss : session D) (st : loop_state) (f : frame D)
    (rest : list (option (frame D))) :
  (camera_loop strftime ss st (Some f :: rest)).2
  = (process_frame strftime ss st f).2
    :: (if is_quit_key (frame_key f) then []
        else (camera_loop strftime ss (process_frame strftime ss st f).1
                          rest).2).
Proof.
  simpl. destruct (process_frame strftime ss st f) as [st1 out]. simpl.
  destruct (is_quit_key (frame_key f)); [reflexivity|].
  destruct (camera_loop strftime ss st1 rest). reflexivity.
Qed.

(** In a session two consecutive access events never carry the same id,
    and the first one differs from the id confirmed before. *)
Lemma camera_loop_no_repeat
    (ss : session D) (reads : list (option (frame D))) :
  ∀ st,
    (∀ i A, logged_ids (camera_loop strftime ss st reads).2 !! i = Some A →
            logged_ids (camera_loop strftime ss st reads).2 !! S i ≠ Some A)
    ∧ (∀ A, logged_ids (camera_loop strftime ss st reads).2 !! 0%nat = Some A →
            last_recognized_user_id st ≠ Some A).
Proof.
  induction reads as [|[f|] rest IH]; intros st;
    try (simpl; split; intros; discriminate).
  rewrite camera_loop_cons.
  destruct (IH (process_frame strftime ss st f).1) as [IHadj IHhead].
  unfold logged_ids, logged_events in *. cbn [omap list_omap].
  destruct (process_frame_last ss st f)
    as [[Hno Hlast]|(ev & id & Hev & Hid & Hlast & Hne)].
  - rewrite Hno. destruct (is_quit_key (frame_key f)).
    + simpl. split; intros; discriminate.
    + rewrite Hlast in IHhead. auto.
  - rewrite Hev. cbn [omap list_omap]. rewrite Hid.
    destruct (is_quit_key (frame_key f)).
    + simpl. split.
      * intros [|i] A; simpl; intros; discriminate.
      * intros A [= <-]. exact Hne.
    + split.
      * intros [|i] A; simpl.
        -- intros [= <-] Hnext. apply (IHhead id Hnext). exact Hlast.
        -- apply IHadj.
      * intros A [= <-]. exact Hne.
Qed.

Lemma stability_gate_set_liveness
    (st : loop_state) (prev : option (list Z)) (sf : Z)
    (cur : option Z) (now : Z) :
  stability_gate (set_liveness st prev sf) cur now
  = (set_liveness (stability_gate st cur now).1 prev sf,
     (stability_gate st cur now).2).
Proof.
  unfold stability_gate. destruct cur as [c|]; simpl; [|reflexivity].
  destruct (decide (pending_user_id st ≠ Some c)); simpl; [reflexivity|].
  destruct (pending_start_time st); simpl; [|reflexivity].
  destruct (_ && _); reflexivity.
Qed.

(** The gate reads and writes the pending id, its start time and the last
    confirmed id only. *)
Lemma stability_gate_view (st g : loop_state) (cur : option Z) (now : Z) :
  gate_view st = gate_view g →
  (stability_gate st cur now).2 = (stability_gate g cur now).2
  ∧ gate_view (stability_gate st cur now).1
    = gate_view (stability_gate g cur now).1.
Proof.
  destruct st as [prev1 sf1 last1 pend1 start1].
  destruct g as [prev2 sf2 last2 pend2 start2].
  unfold gate_view. simpl. intros [= -> -> ->].
  unfold stability_gate. simpl.
  destruct cur as [c|]; simpl; [|auto].
  destruct (decide (pend2 ≠ Some c)); simpl; [auto|].
  destruct start2; simpl; [|auto].
  destruct (_ && _); simpl; auto.
Qed.

(** A live frame in which subject [a] is accepted: the liveness state
    advances, and the gate takes one step with [a] at the instant of the
    frame. *)
Lemma process_frame_gate
    (ss : session D) (st : loop_state) (a : Z) (f : frame D) :
  accepted_frame ss a f →
  (liveness_filter (prev_face_roi_gray st) (static_frames st)
                   (frame_gray_roi f)).2 = true →
  prev_face_roi_gray (process_frame strftime ss st f).1
  = (liveness_filter (prev_face_roi_gray st) (static_frames st)
                     (frame_gray_roi f)).1.1
  ∧ static_frames (process_frame strftime ss st f).1
    = (liveness_filter (prev_face_roi_gray st) (static_frames st)
                       (frame_gray_roi f)).1.2
  ∧ gate_view (process_frame strftime ss st f).1
    = gate_view (stability_gate st (Some a) (frame_now f)).1
  ∧ ∃ md, match_id md = Some a
          ∧ out_access (process_frame strftime ss st f).2
            = if (stability_gate st (Some a) (frame_now f)).2
              then Some (AccessEvent D md (strftime (frame_now f)))
              else None.
Proof.
  intros (r & rs & md & fa & box & Hrep & Hfa & Hbox & Hm & Hid & Hact) Hlive.
  unfold process_frame, process_face. rewrite Hrep, Hm, Hfa, Hbox.
  destruct box as [[[x y] x2] y2].
  destruct (liveness_filter _ _ _) as [[prev sf] live]. simpl in Hlive.
  subst live. rewrite Hid, stability_gate_set_liveness.
  destruct (stability_gate st (Some a) (frame_now f)) as [st2 confirmed].
  unfold recheck_active. rewrite Hid.
  destruct (decide (a ∈ active_user_ids ss)); [|contradiction].
  simpl. eauto 10.
Qed.

(** Over live frames with accepted subjects the access events of the loop
    are those of the gate driven by the ids and instants of the frames. *)
Lemma camera_loop_gate_run (ss : session D) (obs : list (Z * frame D)) :
  ∀ st g,
    gate_view st = gate_view g →
    Forall (fun o => accepted_frame ss o.1 o.2) obs →
    Forall (fun o => is_quit_key (frame_key o.2) = false) obs →
    Forall (fun cv : Z * bool => cv.2 = true)
           (liveness_run (prev_face_roi_gray st) (static_frames st)
                         (map (fun o => frame_gray_roi o.2) obs)) →
    map (fun ev => match_id (ev_user ev))
        (logged_events
           (camera_loop strftime ss st (map (fun o => Some o.2) obs)).2)
    = map Some (gate_run g (map (fun o => Accepted o.1 (frame_now o.2))
                                obs)).2.
Proof.
  induction obs as [|[a f] obs IH]; intros st g Hv Hacc Hq Hlive;
    [reflexivity|].
  cbn [map fst snd] in *. rewrite camera_loop_cons, gate_run_cons.
  apply Forall_cons in Hacc as [Ha Hacc].
  apply Forall_cons in Hq as [Hq0 Hq]. cbn [fst snd] in Ha, Hq0.
  rewrite Hq0. cbn [liveness_run] in Hlive.
  destruct (process_frame_gate ss st a f Ha)
    as (Hprev & Hsf & Hview & md & Hmd & Hout).
  { destruct (liveness_filter _ _ _) as [[prev' sf'] live].
    apply Forall_cons in Hlive as [Hl _]. exact Hl. }
  destruct (liveness_filter _ _ _) as [[prev' sf'] live].
  apply Forall_cons in Hlive as [_ Hlive]. cbn [fst snd] in Hprev, Hsf.
  destruct (stability_gate_view st g (Some a) (frame_now f) Hv)
    as [Hfire Hview2].
  unfold logged_events. cbn [omap list_omap]. rewrite Hout, Hfire.
  cbn [gate_step].
  destruct (stability_gate g (Some a) (frame_now f)) as [g1 fired].
  cbn [fst snd] in *.
  assert (Hrest :
    map (fun ev => match_id (ev_user ev))
        (logged_events
           (camera_loop strftime ss (process_frame strftime ss st f).1
                        (map (fun o => Some o.2) obs)).2)
    = map Some (gate_run g1 (map (fun o => Accepted o.1 (frame_now o.2))
                                 obs)).2).
  { apply IH; [congruence|exact Hacc|exact Hq|].
    rewrite Hprev, Hsf. exact Hlive. }
  unfold logged_events in Hrest.
  destruct fired; cbn [map app ev_user]; rewrite ?Hmd, Hrest; reflexivity.
Qed.

End SessionGate.


(** ** The gate inside the frame *)

Section FrameGate.

Context {D : nat}.
Variable strftime : Z → string.

(** A frame without a usable representation leaves the whole state as it
    was. *)
Lemma process_frame_no_reps
    (ss : session D) (st : loop_state) (f : frame D) :
  (∃ nf, frame_represent f = RepresentRaised nf)
  ∨ frame_represent f = RepresentOk [] →
  (process_frame strftime ss st f).1 = st
  ∧ out_access (process_frame strftime ss st f).2 = None.
Proof.
  unfold process_frame. intros [[nf ->]| ->]; auto.
Qed.

(** A live frame with a face region and an accepted match drives the gate
    with the id of the match at the instant of the frame. *)
Lemma process_frame_accepted
    (ss : session D) (st : loop_state) (f : frame D) (r : rep D)
    (rs : list (rep D)) (md : match_dict D) (id : Z) (fa : facial_area)
    (box : Z * Z * Z * Z) :
  frame_represent f = RepresentOk (r :: rs) →
  er_match (match_engine ss (rep_embedding r)) = Some md →
  match_id md = Some id → id ∈ active_user_ids ss →
  rep_facial_area r = Some fa → clamp_roi f fa = Some box →
  (liveness_filter (prev_face_roi_gray st) (static_frames st)
                   (frame_gray_roi f)).2 = true →
  gate_view (process_frame strftime ss st f).1
  = gate_view (stability_gate st (Some id) (frame_now f)).1
  ∧ out_access (process_frame strftime ss st f).2
    = if (stability_gate st (Some id) (frame_now f)).2
      then Some (AccessEvent D md (strftime (frame_now f)))
      else None.
Proof.
  intros Hrep Hm Hid Hact Hfa Hbox Hlive.
  unfold process_frame, process_face. rewrite Hrep, Hm, Hfa, Hbox.
  destruct box as [[[x y] x2] y2].
  destruct (liveness_filter _ _ _) as [[prev sf] live]. simpl in Hlive.
  subst live. rewrite Hid, stability_gate_set_liveness.
  destruct (stability_gate st (Some id) (frame_now f)) as [st2 confirmed].
  unfold recheck_active. rewrite Hid.
  destruct (decide (id ∈ active_user_ids ss)); [|contradiction].
  simpl. auto.
Qed.

(** C5, as the loop implements it. In a frame that carries a face
    representation: when the frame ends without a match (none was accepted,
    or the re-check dropped it) the pending id and start time are cleared;
    when the frame is classified static while an accepted match of an
    active subject is present, the gate is skipped and the pending id,
    start time and last confirmed id stay as they were, with no access
    event. *)
Theorem pending_cleared_without_match_kept_when_static
    (ss : session D) (st : loop_state) (f : frame D) (r : rep D)
    (rs : list (rep D)) :
  frame_represent f = RepresentOk (r :: rs) →
  out_match (process_frame strftime ss st f).2
  = recheck_active (active_user_ids ss)
                   (er_match (match_engine ss (rep_embedding r)))
  ∧ (out_match (process_frame strftime ss st f).2 = None →
     pending_user_id (process_frame strftime ss st f).1 = None
     ∧ pending_start_time (process_frame strftime ss st f).1 = None)
  ∧ (∀ md fa box,
       er_match (match_engine ss (rep_embedding r)) = Some md →
       has_active_id (active_user_ids ss) md →
       rep_facial_area r = Some fa → clamp_roi f fa = Some box →
       (liveness_filter (prev_face_roi_gray st) (static_frames st)
                        (frame_gray_roi f)).2 = false →
       gate_view (process_frame strftime ss st f).1 = gate_view st
       ∧ out_access (process_frame strftime ss st f).2 = None).
Proof.
  intros Hrep. split; [|split].
  - unfold process_frame. rewrite Hrep.
    destruct (process_face strftime st f r _) as [[[st1 is_live] box] access].
    destruct (recheck_active _ _); reflexivity.
  - unfold process_frame. rewrite Hrep.
    destruct (process_face strftime st f r _) as [[[st1 is_live] box] access].
    destruct (recheck_active _ _); simpl; [discriminate|auto].
  - intros md fa box Hm (id & Hid & Hact) Hfa Hbox Hstatic.
    unfold process_frame, process_face. rewrite Hrep, Hm, Hfa, Hbox.
    destruct box as [[[x y] x2] y2].
    destruct (liveness_filter _ _ _) as [[prev sf] live]. simpl in Hstatic.
    subst live. unfold recheck_active. rewrite Hid.
    destruct (decide (id ∈ active_user_ids ss)); [|contradiction].
    simpl. auto.
Qed.

End FrameGate.

Lemma stale_session_eq :
  stale_session
  = Session 1 {[1; 2]} [ana; bruno] (Some stale_classifier) ∅
            DEFAULT_THRESHOLD.
Proof.
  pose proof stale_session_active as Hact.
  unfold stale_session, open_session in *. simpl in Hact. rewrite Hact.
  unfold filter_embeddings, is_active_embedding. simpl.
  rewrite !bool_decide_eq_true_2; [reflexivity| |].
  - apply elem_of_union_r, elem_of_singleton. reflexivity.
  - apply elem_of_union_l, elem_of_singleton. reflexivity.
Qed.

Lemma stale_classifier_path :
  classifier_path stale_session query_1 = (None, Some 0.95%R).
Proof.
  rewrite stale_session_eq. unfold classifier_path. simpl.
  unfold CLASSIFIER_MIN_PROBA.
  destruct (Rge_dec 0.95 0.8) as [_|Hbad]; [|lra].
  destruct (decide (3 ∈ ({[1; 2]} : gset Z))) as [Hbad|_]; [|reflexivity].
  apply elem_of_union in Hbad as [Hbad|Hbad];
    apply elem_of_singleton in Hbad; discriminate.
Qed.

Lemma stale_distance_path :
  distance_path stale_session query_1
  = (Some (DistanceMatch ana), Some 0.3%R).
Proof.
  rewrite stale_session_eq. unfold distance_path.
  cbn [filtered_embeddings session_threshold].
  rewrite find_best_match_ana_bruno. reflexivity.
Qed.

Lemma stale_engine :
  match_engine stale_session query_1
  = EngineResult 1 (Some (DistanceMatch ana)) (Some 0.3%R) (Some 0.95%R).
Proof.
  unfold match_engine.
  rewrite stale_classifier_path, stale_distance_path. reflexivity.
Qed.

Lemma recheck_ana :
  recheck_active (active_user_ids stale_session) (Some (DistanceMatch ana))
  = Some (DistanceMatch ana).
Proof.
  unfold recheck_active. cbn [match_id e_id ana].
  rewrite stale_session_active.
  destruct (decide (1 ∈ ({[1; 2]} : gset Z))) as [_|Hbad]; [reflexivity|].
  exfalso. apply Hbad, elem_of_union_l, elem_of_singleton. reflexivity.
Qed.

Lemma plain_session_eq :
  plain_session = Session 1 {[1; 2]} [ana; bruno] None ∅ DEFAULT_THRESHOLD.
Proof.
  pose proof stale_session_active as Hact.
  unfold stale_session, plain_session, open_session in *. simpl in Hact.
  rewrite Hact. unfold filter_embeddings, is_active_embedding. simpl.
  rewrite !bool_decide_eq_true_2; [reflexivity| |].
  - apply elem_of_union_r, elem_of_singleton. reflexivity.
  - apply elem_of_union_l, elem_of_singleton. reflexivity.
Qed.

Lemma plain_engine :
  match_engine plain_session query_1
  = EngineResult 1 (Some (DistanceMatch ana)) (Some 0.3%R) None.
Proof.
  rewrite plain_session_eq. unfold match_engine, classifier_path.
  cbn [session_classifier]. unfold distance_path.
  cbn [filtered_embeddings session_threshold].
  rewrite find_best_match_ana_bruno. reflexivity.
Qed.


Lemma stale_classifier_path_any (q : vec R 1) :
  classifier_path stale_session q = (None, Some 0.95%R).
Proof.
  rewrite stale_session_eq. unfold classifier_path. simpl.
  unfold CLASSIFIER_MIN_PROBA.
  destruct (Rge_dec 0.95 0.8) as [_|Hbad]; [|lra].
  destruct (decide (3 ∈ ({[1; 2]} : gset Z))) as [Hbad|_]; [|reflexivity].
  apply elem_of_union in Hbad as [Hbad|Hbad];
    apply elem_of_singleton in Hbad; discriminate.
Qed.

Lemma distance_query_2_ana : spec_distance query_2 ana = 1.2%R.
Proof.
  unfold spec_distance, spec_normalize, query_2, ana. simpl.
  rewrite (norm_singleton 4e-8) by lra.
  rewrite (norm_singleton_neg (- (2 / 3) * 1e-8)) by lra.
  replace (4e-8 / (4e-8 + 1e-8)
           - - (2 / 3) * 1e-8 / (- (- (2 / 3) * 1e-8) + 1e-8))%R
    with 1.2%R by (field_simplify; lra).
  rewrite norm_singleton by lra. reflexivity.
Qed.

Lemma distance_query_2_bruno : spec_distance query_2 bruno = 0%R.
Proof.
  unfold spec_distance, spec_normalize, query_2, bruno. simpl.
  rewrite (norm_singleton_neg (- (2 / 3) * 1e-8)) by lra.
  replace (- (2 / 3) * 1e-8 / (- (- (2 / 3) * 1e-8) + 1e-8)
           - - (2 / 3) * 1e-8 / (- (- (2 / 3) * 1e-8) + 1e-8))%R
    with 0%R by lra.
  apply norm_singleton. lra.
Qed.

Lemma find_best_match_query_2 :
  _find_best_match query_2 [ana; bruno] DEFAULT_THRESHOLD
  = (Some bruno, Some 0%R).
Proof.
  unfold _find_best_match. rewrite normalized_distances_spec. simpl.
  rewrite distance_query_2_ana, distance_query_2_bruno.
  unfold Np.argmin. simpl.
  destruct (Rlt_dec 0 1.2) as [_|Hbad]; [|lra]. simpl.
  unfold DEFAULT_THRESHOLD.
  destruct (Rlt_dec 0 0.6) as [_|Hbad]; [reflexivity|lra].
Qed.

Lemma stale_engine_query_2 :
  match_engine stale_session query_2
  = EngineResult 1 (Some (DistanceMatch bruno)) (Some 0%R) (Some 0.95%R).
Proof.
  unfold match_engine. rewrite stale_classifier_path_any.
  rewrite stale_session_eq. unfold distance_path.
  cbn [filtered_embeddings session_threshold].
  rewrite find_best_match_query_2. reflexivity.
Qed.

Lemma accepted_sighting_ana (crop now : Z) :
  accepted_frame stale_session 1 (sighting query_1 crop now).
Proof.
  exists (Rep 1 query_1 (Some (FacialArea 10 10 100 100))), [],
    (DistanceMatch ana), (FacialArea 10 10 100 100), (10, 10, 110, 110).
  split; [reflexivity|]. split; [reflexivity|]. split; [reflexivity|].
  cbn [rep_embedding]. rewrite stale_engine.
  split; [reflexivity|]. split; [reflexivity|].
  rewrite stale_session_active.
  apply elem_of_union_l, elem_of_singleton. reflexivity.
Qed.

Lemma accepted_sighting_bruno (crop now : Z) :
  accepted_frame stale_session 2 (sighting query_2 crop now).
Proof.
  exists (Rep 1 query_2 (Some (FacialArea 10 10 100 100))), [],
    (DistanceMatch bruno), (FacialArea 10 10 100 100), (10, 10, 110, 110).
  split; [reflexivity|]. split; [reflexivity|]. split; [reflexivity|].
  cbn [rep_embedding]. rewrite stale_engine_query_2.
  split; [reflexivity|]. split; [reflexivity|].
  rewrite stale_session_active.
  apply elem_of_union_r, elem_of_singleton. reflexivity.
Qed.

Lemma alternating_crops_live :
  Forall (fun cv : Z * bool => cv.2 = true)
         (liveness_run None 0
            [flat_crop 128; flat_crop 130; flat_crop 128; flat_crop 130]).
Proof. vm_compute. repeat constructor. Qed.

Lemma sighting_crops_live :
  Forall (fun cv : Z * bool => cv.2 = true)
         (liveness_run None 0 [flat_crop 128; flat_crop 130]).
Proof. vm_compute. repeat constructor. Qed.


Lemma liveness_static_tenth :
  liveness_filter (Some (flat_crop 128)) 9 (flat_crop 128)
  = (Some (flat_crop 128), 10, false).
Proof. vm_compute. reflexivity. Qed.

Lemma static_frame_is_static :
  (liveness_filter (prev_face_roi_gray static_state)
                   (static_frames static_state)
                   (frame_gray_roi static_frame)).2 = false.
Proof. vm_compute. reflexivity. Qed.

Lemma static_frame_clamp :
  clamp_roi static_frame (FacialArea 10 10 100 100) = Some (10, 10, 110, 110).
Proof. reflexivity. Qed.

Lemma pending_cleared_without_match_kept_when_static_witness :
  gate_view (process_frame example_strftime stale_session static_state
                           static_frame).1
  = (Some 1, Some 0, None).
Proof.
  refine (proj1 (proj2 (proj2 (pending_cleared_without_match_kept_when_static
            example_strftime stale_session static_state static_frame
            (Rep 1 query_1 (Some (FacialArea 10 10 100 100))) [] eq_refl))
          (DistanceMatch ana) (FacialArea 10 10 100 100) (10, 10, 110, 110)
          _ _ eq_refl static_frame_clamp _)).
  - simpl. rewrite stale_engine. reflexivity.
  - exists 1. split; [reflexivity|]. rewrite stale_session_active.
    apply elem_of_union_l, elem_of_singleton. reflexivity.
  - exact static_frame_is_static.
Defined.

(** The claim as worded fails on a static frame: the frame is classified
    static, yet subject 1 is still pending, since instant 0, when the frame
    ends. *)
Lemma static_frame_keeps_pending :
  (liveness_filter (prev_face_roi_gray static_state)
                   (static_frames static_state)
                   (frame_gray_roi static_frame)).2 = false
  ∧ pending_user_id (process_frame example_strftime stale_session
                                   static_state static_frame).1 = Some 1
  ∧ pending_start_time (process_frame example_strftime stale_session
                                      static_state static_frame).1 = Some 0.
Proof.
  split.
  - exact static_frame_is_static.
  - unfold process_frame, process_face. simpl frame_represent. cbv iota.
    simpl rep_embedding. rewrite stale_engine.
    simpl rep_facial_area. cbv iota. rewrite static_frame_clamp. cbv iota.
    simpl prev_face_roi_gray. simpl static_frames. simpl frame_gray_roi.
    rewrite liveness_static_tenth. simpl er_match. cbv iota.
    unfold recheck_active. simpl match_id. cbv iota.
    rewrite stale_session_active.
    destruct (decide (1 ∈ ({[1; 2]} : gset Z))) as [_|Hbad].
    + split; reflexivity.
    + exfalso. apply Hbad, elem_of_union_l, elem_of_singleton. reflexivity.
Qed.

(** ** The liveness filter *)

Section Liveness.

Lemma absdiff_same_sum (c : list Z) : foldr Z.add 0 (Np.absdiff c c) = 0.
Proof.
  unfold Np.absdiff. induction c as [|x c IH]; simpl; [reflexivity|].
  rewrite IH. lia.
Qed.

Lemma absdiff_same_mean (c : list Z) :
  c ≠ [] → ∃ m, Np.mean (Np.absdiff c c) = Some m ∧ (m < 1)%Q.
Proof.
  intros Hne. unfold Np.mean.
  destruct (Np.absdiff c c) as [|x l] eqn:Hd.
  - destruct c; [congruence|discriminate].
  - rewrite <- Hd, absdiff_same_sum. eexists. split; [reflexivity|].
    unfold Qlt. simpl. lia.
Qed.

Lemma liveness_first (c : list Z) :
  liveness_filter None 0 c = (Some c, 0, true).
Proof. reflexivity. Qed.

Lemma liveness_same (c : list Z) (k : Z) :
  c ≠ [] →
  liveness_filter (Some c) k c
  = (Some c, k + 1, if LIVENESS_STATIC_FRAMES <=? k + 1 then false else true).
Proof.
  intros Hne. unfold liveness_filter.
  destruct (decide (length c = length c)) as [_|Hbad]; [|congruence].
  destruct (absdiff_same_mean c Hne) as (m & -> & Hm).
  destruct (Qlt_le_dec m LIVENESS_DIFF_THRESHOLD) as [_|Hge]; [reflexivity|].
  exfalso. apply (Qlt_not_le _ _ Hm). exact Hge.
Qed.

Lemma liveness_changed (c d : list Z) (k : Z) (m : Q) :
  length c = length d → Np.mean (Np.absdiff d c) = Some m →
  (LIVENESS_DIFF_THRESHOLD <= m)%Q →
  liveness_filter (Some c) k d = (Some d, 0, true).
Proof.
  intros Hlen Hmean Hm. unfold liveness_filter.
  destruct (decide (length c = length d)) as [_|Hbad]; [|congruence].
  rewrite Hmean.
  destruct (Qlt_le_dec m LIVENESS_DIFF_THRESHOLD) as [Hlt|_]; [|reflexivity].
  exfalso. apply (Qlt_not_le _ _ Hlt). exact Hm.
Qed.


End Liveness.

Lemma flat_crops_differ :
  Np.mean (Np.absdiff (flat_crop 130) (flat_crop 128)) = Some (8192 # 4096).
Proof. vm_compute. reflexivity. Qed.


(** In twelve identical crops, frame 9 is the last live one, with counter
    9, and frame 10 the first static one. *)
Example identical_crops_frames_nine_and_ten :
  liveness_run None 0 (replicate 12 (flat_crop 128)) !! 9%nat
  = Some (9, true)
  ∧ liveness_run None 0 (replicate 12 (flat_crop 128)) !! 10%nat
    = Some (10, false).
Proof. vm_compute. split; reflexivity. Qed.

(** ** The subject registry *)

Section Registry.

Lemma filter_length_all {A : Type} (f : A → bool) (l : list A) :
  (length (List.filter f l) <= length l)%nat
  ∧ (length (List.filter f l) = length l → List.filter f l = l)
  ∧ (length (List.filter f l) = length l ↔ ∀ x, x ∈ l → f x = true).
Proof.
  induction l as [|a l (IHle & IHeq & IHall)]; simpl.
  - repeat split; auto. intros _ x Hx. apply elem_of_nil in Hx. contradiction.
  - destruct (f a) eqn:Hfa; simpl.
    + split; [lia|]. split.
      * intros Hlen. f_equal. apply IHeq. lia.
      * split.
        -- intros Hlen x Hx. apply elem_of_cons in Hx as [->|Hx]; [exact Hfa|].
           apply IHall; [lia|exact Hx].
        -- intros Hall. f_equal. apply IHall. intros x Hx. apply Hall.
           right. exact Hx.
    + split; [lia|]. split; [lia|]. split; [lia|].
      intros Hall. specialize (Hall a ltac:(left)). congruence.
Qed.

Lemma filter_bool_prop {A : Type} (f : A → bool) (P : A → Prop)
    `{∀ x, Decision (P x)} (l : list A) :
  (∀ x, f x = true ↔ P x) → List.filter f l = filter P l.
Proof.
  intros Hfp. induction l as [|a l IH]; [reflexivity|].
  simpl. rewrite filter_cons, IH.
  destruct (f a) eqn:Hfa; destruct (decide (P a)) as [Hp|Hp]; try reflexivity.
  - exfalso. apply Hp, Hfp. exact Hfa.
  - apply Hfp in Hp. congruence.
Qed.

Lemma delete_user_filter (user_id : Z) (users : list user) :
  List.filter (fun u => negb (record_id u =? user_id)) users
  = filter (λ u, record_id u ≠ user_id) users.
Proof.
  apply filter_bool_prop. intros u.
  rewrite negb_true_iff, Z.eqb_neq. reflexivity.
Qed.

Lemma delete_user_cases
    (w : world) (user_id : Z) (delete_images : bool) :
  ((∀ u, u ∈ load_users w → record_id u ≠ user_id) →
   delete_user user_id delete_images w = (w, false))
  ∧ ((∃ u, u ∈ load_users w ∧ record_id u = user_id) →
     (delete_user user_id delete_images w).2 = true
     ∧ users_json (delete_user user_id delete_images w).1
       = Some (filter (λ u, record_id u ≠ user_id) (load_users w))
     ∧ json_writes (delete_user user_id delete_images w).1
       = S (json_writes w)).
Proof.
  unfold delete_user.
  destruct (filter_length_all (fun u => negb (record_id u =? user_id))
                              (load_users w)) as (_ & _ & Hall).
  split.
  - intros Hnone.
    destruct (decide (length _ = length (load_users w))) as [_|Hlen];
      [reflexivity|].
    exfalso. apply Hlen, Hall. intros u Hu.
    apply negb_true_iff, Z.eqb_neq. auto.
  - intros (u & Hu & Hid).
    destruct (decide (length _ = length (load_users w))) as [Hlen|_].
    + exfalso. pose proof (proj1 Hall Hlen u Hu) as Hf.
      apply negb_true_iff, Z.eqb_neq in Hf. contradiction.
    + rewrite <- delete_user_filter.
      destruct delete_images; simpl; auto.
Qed.

(** C10. When no record carries the id (read as the code reads it, an
    absent id counting as -1), [delete_user] returns [False] and the world
    is untouched, [users.json] not being written; when some record carries
    it, the call returns [True] and [users.json] holds the prior list
    without the records of that id, the others unchanged and in order. *)
Theorem delete_user_removes_exactly
    (w : world) (user_id : Z) (delete_images : bool) :
  ((∀ u, u ∈ load_users w → record_id u ≠ user_id) →
   delete_user user_id delete_images w = (w, false))
  ∧ ((∃ u, u ∈ load_users w ∧ record_id u = user_id) →
     (delete_user user_id delete_images w).2 = true
     ∧ users_json (delete_user user_id delete_images w).1
       = Some (filter (λ u, record_id u ≠ user_id) (load_users w))
     ∧ json_writes (delete_user user_id delete_images w).1
       = S (json_writes w)).
Proof. exact (delete_user_cases w user_id delete_images). Qed.

End Registry.

Lemma delete_user_removes_exactly_witness :
  (delete_user 2 true world_ana_bruno).2 = true
  ∧ users_json (delete_user 2 true world_ana_bruno).1
    = Some [User (Some 1) (Some "Ana") None].
Proof.
  destruct (proj2 (delete_user_removes_exactly world_ana_bruno 2 true))
    as (Hret & Husers & _).
  - exists (User (Some 2) (Some "Bruno") None). split; [|reflexivity].
    right. left.
  - split; [exact Hret|]. rewrite Husers. reflexivity.
Defined.

(** ** The access logger *)

Section AccessLogger.

Context {D : nat}.

Lemma string_app_assoc (a b c : string) :
  (a +:+ b) +:+ c = a +:+ (b +:+ c).
Proof.
  induction a as [|x a IH]; [reflexivity|].
  change (String x ((a +:+ b) +:+ c) = String x (a +:+ b +:+ c)).
  rewrite IH. reflexivity.
Qed.

Lemma string_app_nil_r (a : string) : a +:+ EmptyString = a.
Proof.
  induction a as [|x a IH]; [reflexivity|].
  change (String x (a +:+ EmptyString) = String x a).
  rewrite IH. reflexivity.
Qed.

Lemma csv_field_plain (s : string) :
  Csv.needs_quote s = false → Csv.field s = s.
Proof. unfold Csv.field. intros ->. reflexivity. Qed.

Lemma csv_writerow_plain (a b c d : string) :
  Forall (fun s => Csv.needs_quote s = false) [a; b; c; d] →
  Csv.writerow [a; b; c; d]
  = a +:+ ";" +:+ b +:+ ";" +:+ c +:+ ";" +:+ d +:+ Csv.lineterminator.
Proof.
  intros Hall.
  apply Forall_cons in Hall as [Ha Hall].
  apply Forall_cons in Hall as [Hb Hall].
  apply Forall_cons in Hall as [Hc Hall].
  apply Forall_cons in Hall as [Hd _].
  unfold Csv.writerow. simpl.
  rewrite !csv_field_plain by assumption.
  unfold Csv.delimiter.
  rewrite !string_app_assoc. reflexivity.
Qed.

(** C9, with the header the logger writes. A call that completes appends
    exactly one row, the semicolon-delimited timestamp, id, name and cpf of
    the subject, after the header line [timestamp;user_id;name;cpf] when
    and only when the file did not exist. However the call ends, what the
    file held before is kept as a prefix of what it holds after; a call
    that raises is logged as an error and returns normally, and leaves the
    file untouched when it raises before the file is opened. *)
Theorem log_access_event_appends_one_row
    (csvfile : option string) (user : match_dict D) (timestamp : string) :
  Csv.writerow access_log_header
  = "timestamp;user_id;name;cpf" +:+ Csv.lineterminator
  ∧ (_log_access_event Completed None user timestamp).1
    = Some (Csv.writerow access_log_header
            +:+ Csv.writerow (access_log_row user timestamp))
  ∧ (∀ old, csvfile = Some old →
            (_log_access_event Completed csvfile user timestamp).1
            = Some (old +:+ Csv.writerow (access_log_row user timestamp)))
  ∧ (Forall (fun s => Csv.needs_quote s = false)
            (access_log_row user timestamp) →
     Csv.writerow (access_log_row user timestamp)
     = timestamp +:+ ";"
       +:+ from_option pretty EmptyString (match_id user) +:+ ";"
       +:+ default EmptyString (match_name user) +:+ ";"
       +:+ default EmptyString (match_cpf user) +:+ Csv.lineterminator)
  ∧ (∀ outcome old,
       csvfile = Some old →
       ∃ appended,
         (_log_access_event outcome csvfile user timestamp).1
         = Some (old +:+ appended))
  ∧ (∀ outcome,
       outcome ≠ Completed →
       (_log_access_event outcome csvfile user timestamp).2 = AccessLogError)
  ∧ _log_access_event RaisedBeforeOpen csvfile user timestamp
    = (csvfile, AccessLogError).
Proof.
  split; [reflexivity|]. split; [reflexivity|].
  split; [|split; [|split; [|split]]].
  - intros old ->. unfold _log_access_event.
    rewrite bool_decide_eq_true_2 by eauto. reflexivity.
  - apply csv_writerow_plain.
  - intros outcome old ->. unfold _log_access_event.
    rewrite bool_decide_eq_true_2 by eauto.
    destruct outcome as [| |written]; simpl; eauto.
    exists EmptyString. rewrite string_app_nil_r. reflexivity.
  - intros [| |written] Hne; [congruence|reflexivity|reflexivity].
  - reflexivity.
Qed.

End AccessLogger.

Lemma log_access_event_appends_one_row_witness :
  (_log_access_event Completed None classifier_match_ana
                     "03/11/2026 10:00:00").1
  = Some ("timestamp;user_id;name;cpf" +:+ Csv.lineterminator
          +:+ "03/11/2026 10:00:00;1;Ana;" +:+ Csv.lineterminator).
Proof.
  destruct (log_access_event_appends_one_row
              None classifier_match_ana "03/11/2026 10:00:00")
    as (Hheader & Hnew & _ & Hrow & _).
  rewrite Hnew, Hheader, Hrow.
  - reflexivity.
  - repeat constructor.
Defined.

(** The first line of a new audit file is [timestamp;user_id;name;cpf]:
    the second column is named [user_id] and no space follows the
    semicolons, so the file does not start with
    [timestamp; subject_id; name; cpf]. *)
Lemma access_log_header_is_user_id :
  (_log_access_event Completed None classifier_match_ana
                     "03/11/2026 10:00:00").1
  = Some ("timestamp;user_id;name;cpf" +:+ Csv.lineterminator
          +:+ "03/11/2026 10:00:00;1;Ana;" +:+ Csv.lineterminator)
  ∧ String.prefix "timestamp; subject_id; name; cpf"
      ("timestamp;user_id;name;cpf" +:+ Csv.lineterminator
       +:+ "03/11/2026 10:00:00;1;Ana;" +:+ Csv.lineterminator) = false.
Proof. split; vm_compute; reflexivity. Qed.

Example image_name_examples :
  image_name 0 = "000.jpg" ∧ image_name 12 = "012.jpg"
  ∧ image_name 1234 = "1234.jpg".
Proof. repeat split; reflexivity. Qed.

Example get_next_user_id_examples :
  get_next_user_id [] = 1 ∧ get_next_user_id users_ana_bruno = 3
  ∧ get_next_user_id [User None (Some "Ana") None] = 1.
Proof. repeat split; reflexivity. Qed.

Example csv_quotes_delimiter :
  Csv.writerow ["a;b"; "c"]
  = String Csv.quotechar
           ("a;b" +:+ String Csv.quotechar (";c" +:+ Csv.lineterminator)).
Proof. reflexivity. Qed.

(** ** Enrollment *)

Section Enrollment.

Context {D : nat}.

Lemma foldl_max_ge (l : list Z) (a : Z) :
  a <= foldl Z.max a l ∧ ∀ x, x ∈ l → x <= foldl Z.max a l.
Proof.
  revert a. induction l as [|y l IH]; intros a; simpl.
  - split; [lia|]. intros x Hx. apply elem_of_nil in Hx. contradiction.
  - destruct (IH (Z.max a y)) as [Ha Hl]. split; [lia|].
    intros x Hx. apply elem_of_cons in Hx as [->|Hx]; [lia|auto].
Qed.

(** The id given to a new subject is above the id read from any record. *)
Lemma get_next_user_id_fresh (users : list user) (u : user) :
  u ∈ users → record_id u < get_next_user_id users.
Proof.
  unfold get_next_user_id, record_id.
  destruct users as [|u0 us]; intros Hu.
  - apply elem_of_nil in Hu. contradiction.
  - destruct (foldl_max_ge (map (fun u => default 0 (user_id u)) us)
                           (default 0 (user_id u0))) as [H0 Hrest].
    assert (Hle : default 0 (user_id u)
                  <= foldl Z.max (default 0 (user_id u0))
                           (map (fun u => default 0 (user_id u)) us)).
    { apply elem_of_cons in Hu as [->|Hu]; [exact H0|].
      apply Hrest.
      change (map (fun u => default 0 (user_id u)) us)
        with ((fun u => default 0 (user_id u)) <$> us).
      apply list_elem_of_fmap. eauto. }
    destruct (user_id u) as [i|]; simpl in *; lia.
Qed.

Lemma capture_step_registry
    (num_images user_id : Z) (cs : capture_state) (w : world) (f : frame D) :
  users_json (capture_step num_images user_id cs w f).1.2 = users_json w.
Proof.
  unfold capture_step.
  destruct (capture_liveness cs f) as [cs1 has_live_face].
  destruct (has_live_face && _); [|reflexivity].
  destruct (_ && _); [|reflexivity].
  destruct (num_images <=? _); reflexivity.
Qed.

Lemma capture_loop_registry
    (num_images user_id : Z) (reads : list (option (frame D))) :
  ∀ cs w,
    users_json (capture_loop num_images user_id cs w reads).2 = users_json w.
Proof.
  induction reads as [|[f|] rest IH]; intros cs w; simpl; try reflexivity.
  pose proof (capture_step_registry num_images user_id cs w f) as Hstep.
  destruct (capture_step num_images user_id cs w f) as [[cs1 w1] stop].
  simpl in Hstep. destruct stop; [exact Hstep|].
  rewrite IH. exact Hstep.
Qed.

Lemma enrollment_run_registry
    (name cpf : string) (num_images : Z) (reads : list (option (frame D)))
    (w : world) :
  (enrollment_run name cpf num_images reads w).1.1
  = get_next_user_id (load_users w)
  ∧ load_users (enrollment_run name cpf num_images reads w).2
    = load_users w
      ++ [User (Some (get_next_user_id (load_users w))) (Some name)
               (if nonempty cpf then Some cpf else None)].
Proof.
  unfold enrollment_run, register_user.
  destruct (capture_loop _ _ _ _ reads) as [cs w3] eqn:Hloop.
  simpl. split; [reflexivity|].
  pose proof (capture_loop_registry num_images
                (get_next_user_id (load_users w)) reads
                (CaptureState 0 0 None 0 0)
                (_create_user_image_dir (get_next_user_id (load_users w))
                   (save_users
                      (load_users w
                       ++ [User (Some (get_next_user_id (load_users w)))
                                (Some name)
                                (if nonempty cpf then Some cpf else None)])
                      w))) as Hreg.
  rewrite Hloop in Hreg. simpl in Hreg.
  unfold load_users at 1. rewrite Hreg.
  unfold _create_user_image_dir. destruct (_ !! _); reflexivity.
Qed.

Lemma filter_all_id {A : Type} (P : A → Prop) `{∀ x, Decision (P x)}
    (l : list A) :
  (∀ x, x ∈ l → P x) → filter P l = l.
Proof.
  induction l as [|a l IH]; intros Hall; [reflexivity|].
  rewrite filter_cons.
  destruct (decide (P a)) as [_|Hbad].
  - f_equal. apply IH. intros x Hx. apply Hall. right. exact Hx.
  - exfalso. apply Hbad, Hall. left.
Qed.

Lemma rollback_filter (users : list user) (new : user) :
  record_id new = get_next_user_id users →
  filter (λ u, record_id u ≠ get_next_user_id users) (users ++ [new])
  = users.
Proof.
  intros Hnew. rewrite filter_app, filter_cons, filter_nil.
  destruct (decide (record_id new ≠ get_next_user_id users)) as [Hbad|_];
    [contradiction|].
  rewrite app_nil_r. apply filter_all_id.
  intros x Hx. pose proof (get_next_user_id_fresh _ x Hx). lia.
Qed.

(** C8. When the camera cannot be opened [capture_user_faces] returns
    [None] and the world is unchanged: no record, no directory. When the
    camera opens and the run ends with zero captured images, the call
    returns [None], the registry holds the records it held before the call
    and none with the new id, and the directory of the new id is gone. *)
Theorem capture_rolls_back_without_images
    (name cpf : string) (num_images : Z) (w : world) :
  capture_user_faces (D := D) name cpf num_images None w = (w, None)
  ∧ (∀ reads : list (option (frame D)),
       captured (enrollment_run name cpf num_images reads w).1.2 = 0 →
       (capture_user_faces name cpf num_images (Some reads) w).2 = None
       ∧ load_users (capture_user_faces name cpf num_images (Some reads) w).1
         = load_users w
       ∧ (∀ u, u ∈ load_users
                     (capture_user_faces name cpf num_images (Some reads) w).1 →
               user_id u
               ≠ Some (enrollment_run name cpf num_images reads w).1.1)
       ∧ images (capture_user_faces name cpf num_images (Some reads) w).1
         !! (enrollment_run name cpf num_images reads w).1.1 = None).
Proof.
  split; [reflexivity|].
  intros reads Hzero.
  destruct (enrollment_run_registry name cpf num_images reads w)
    as [Huid Husers].
  unfold capture_user_faces.
  destruct (enrollment_run name cpf num_images reads w) as [[uid cs] w3].
  simpl in Hzero, Huid, Husers. subst uid. rewrite Hzero. simpl.
  set (new := User (Some (get_next_user_id (load_users w))) (Some name)
                   (if nonempty cpf then Some cpf else None)) in *.
  destruct (proj2 (delete_user_cases w3
                     (get_next_user_id (load_users w)) true))
    as (_ & Hjson & _).
  { exists new. split; [|reflexivity]. rewrite Husers.
    apply elem_of_app. right. left. }
  assert (Hload :
    load_users (delete_user (get_next_user_id (load_users w)) true w3).1
    = load_users w).
  { unfold load_users at 1. rewrite Hjson. simpl. rewrite Husers.
    apply rollback_filter. reflexivity. }
  split; [reflexivity|]. split; [exact Hload|]. split.
  - rewrite Hload. intros u Hu Hid.
    pose proof (get_next_user_id_fresh _ u Hu) as Hlt.
    unfold record_id in Hlt. rewrite Hid in Hlt. simpl in Hlt. lia.
  - unfold delete_user.
    destruct (decide (length _ = length (load_users w3))) as [Hlen|_].
    + exfalso.
      destruct (filter_length_all
                  (fun u => negb (record_id u
                                  =? get_next_user_id (load_users w)))
                  (load_users w3)) as (_ & _ & Hall).
      pose proof (proj1 Hall Hlen new) as Hf.
      rewrite Husers in Hf.
      specialize (Hf ltac:(apply elem_of_app; right; left)).
      apply negb_true_iff, Z.eqb_neq in Hf. apply Hf. reflexivity.
    + simpl. apply lookup_delete_eq.
Qed.

End Enrollment.

Lemma capture_rolls_back_without_images_witness :
  (capture_user_faces (D := 1) "Carla" EmptyString 5 (Some []) world_ana_bruno).2
  = None
  ∧ load_users
      (capture_user_faces (D := 1) "Carla" EmptyString 5 (Some [])
                          world_ana_bruno).1
    = users_ana_bruno.
Proof.
  destruct (proj2 (capture_rolls_back_without_images (D := 1)
                     "Carla" EmptyString 5 world_ana_bruno) [] eq_refl)
    as (Hret & Husers & _).
  split; [exact Hret|exact Husers].
Defined.

(** ** The embedding builder *)

Section EmbeddingBuilder.

Context {D : nat}.
Variable represent_path : string → option (list (rep D)).

Lemma collect_image_paths_active (w : world) (item : image_info) :
  item ∈ _collect_image_paths w →
  info_id item ∈ active_ids (load_users w)
  ∧ is_Some (images w !! info_id item).
Proof.
  unfold _collect_image_paths, active_ids.
  rewrite list_elem_of_In, in_flat_map.
  intros (u & Hu & Hitem). apply list_elem_of_In in Hu.
  destruct (user_id u) as [uid|] eqn:Hid; [|contradiction].
  destruct (images w !! uid) as [names|] eqn:Hdir; [|contradiction].
  apply in_map_iff in Hitem as (n & <- & _). simpl. split.
  - apply elem_of_list_to_set, list_elem_of_omap. eauto.
  - rewrite Hdir. eauto.
Qed.

(** When the builder produces at least one descriptor, the file is
    replaced by records of currently registered subjects only. *)
Lemma generate_embeddings_replaces
    (pkl : option (list (embedding_record D))) (w : world) :
  0 < (generate_embeddings represent_path pkl w).2 →
  ∃ l, (generate_embeddings represent_path pkl w).1 = Some l
       ∧ (generate_embeddings represent_path pkl w).2 = Z.of_nat (length l)
       ∧ ∀ e, e ∈ l →
              ∃ uid, e_id e = Some uid ∧ uid ∈ active_ids (load_users w).
Proof.
  unfold generate_embeddings.
  destruct (_collect_image_paths w) as [|i0 items] eqn:Hinfo;
    [simpl; intros; lia|].
  destruct (omap (embed_image represent_path) (i0 :: items))
    as [|e0 es] eqn:Hemb; [simpl; intros; lia|].
  intros _. exists (e0 :: es). split; [reflexivity|]. split; [reflexivity|].
  intros e He. rewrite <- Hemb in He.
  apply list_elem_of_omap in He as (item & Hitem & Hembed).
  rewrite <- Hinfo in Hitem.
  apply collect_image_paths_active in Hitem as [Hact _].
  unfold embed_image in Hembed.
  destruct (represent_path (info_path item)) as [[|r rs]|]; try discriminate.
  injection Hembed as <-. simpl. eauto.
Qed.

End EmbeddingBuilder.

(** C7, at the input where the builder leaves the old set in place.
    Subject 1 is the only subject; the builder writes its descriptor; the
    subject is deleted with its images; the builder runs again, finds no
    image, returns 0 before it opens the file, and the persisted set still
    holds the record of subject 1. [replace_embeddings] likewise returns
    before its [DELETE] when it is given no record. *)
Theorem generate_embeddings_keeps_stale_set :
  generate_embeddings represent_ana None world_only_ana = (Some [ana], 1)
  ∧ delete_user 1 true world_only_ana = (World (Some []) ∅ 2, true)
  ∧ generate_embeddings represent_ana (Some [ana]) (World (Some []) ∅ 2)
    = (Some [ana], 0)
  ∧ replace_embeddings [] database_with_ana = (database_with_ana, true).
Proof.
  split; [reflexivity|]. split; [|split; reflexivity].
  vm_compute. reflexivity.
Qed.

(** * Further properties of the code *)

(** ** The face region *)

Section FaceRegion.

Context {D : nat}.

(** X1. A face region that passes the clamp of lines 295-307 lies inside
    the frame and holds at least one pixel, whatever coordinates the model
    returned (negative, or beyond the border). *)
Theorem clamp_roi_within_frame
    (f : frame D) (fa : facial_area) (x y x2 y2 : Z) :
  clamp_roi f fa = Some (x, y, x2, y2) →
  0 <= x < x2 ∧ x2 <= frame_width f
  ∧ 0 <= y < y2 ∧ y2 <= frame_height f
  ∧ x2 - x <= Z.max 0 (fa_w fa) ∧ y2 - y <= Z.max 0 (fa_h fa).
Proof.
  unfold clamp_roi.
  destruct (_ && _) eqn:Hb; [|discriminate].
  apply andb_true_iff in Hb as [Hx Hy]. apply Z.ltb_lt in Hx, Hy.
  intros Heq. inversion Heq; subst; clear Heq. lia.
Qed.

End FaceRegion.

Lemma clamp_roi_within_frame_witness :
  0 <= 10 < 110 ∧ 110 <= frame_width static_frame.
Proof.
  destruct (clamp_roi_within_frame static_frame (FacialArea 10 10 100 100)
              10 10 110 110 eq_refl) as (Hx & Hx2 & _).
  split; [exact Hx|exact Hx2].
Defined.

(** ** The registry: ids and round trips *)

Section RegistryIds.

Lemma register_user_users (name cpf : string) (w : world) :
  load_users (register_user name cpf w).1
  = load_users w
    ++ [User (Some (get_next_user_id (load_users w))) (Some name)
             (if nonempty cpf then Some cpf else None)]
  ∧ (register_user name cpf w).2 = get_next_user_id (load_users w).
Proof. split; reflexivity. Qed.


(** X3. Registering a subject and deleting the id just returned gives back
    the list of records held before; the id is then free again, and the
    next registration hands out the same id. *)
Theorem register_delete_round_trip
    (name cpf name' cpf' : string) (delete_images : bool) (w : world) :
  (delete_user (register_user name cpf w).2 delete_images
               (register_user name cpf w).1).2 = true
  ∧ load_users (delete_user (register_user name cpf w).2 delete_images
                            (register_user name cpf w).1).1
    = load_users w
  ∧ (register_user name' cpf'
       (delete_user (register_user name cpf w).2 delete_images
                    (register_user name cpf w).1).1).2
    = (register_user name cpf w).2.
Proof.
  destruct (register_user_users name cpf w) as [Husers Hid].
  destruct (proj2 (delete_user_cases (register_user name cpf w).1
                     (register_user name cpf w).2 delete_images))
    as (Hret & Hjson & _).
  { exists (User (Some (get_next_user_id (load_users w))) (Some name)
                 (if nonempty cpf then Some cpf else None)).
    split; [|rewrite Hid; reflexivity].
    rewrite Husers. apply elem_of_app. right. left. }
  assert (Hload :
    load_users (delete_user (register_user name cpf w).2 delete_images
                            (register_user name cpf w).1).1
    = load_users w).
  { unfold load_users at 1. rewrite Hjson. cbn [default from_option].
    rewrite Husers, Hid. apply rollback_filter. reflexivity. }
  split; [exact Hret|]. split; [exact Hload|].
  rewrite (proj2 (register_user_users name' cpf' _)), Hload, Hid.
  reflexivity.
Qed.

Lemma delete_user_idempotent_aux
    (user_id : Z) (delete_images : bool) (w : world) :
  (∀ u, u ∈ load_users (delete_user user_id delete_images w).1 →
        record_id u ≠ user_id)
  ∧ delete_user user_id delete_images (delete_user user_id delete_images w).1
    = ((delete_user user_id delete_images w).1, false)
  ∧ (∀ other, other ≠ user_id →
              images (delete_user user_id delete_images w).1 !! other
              = images w !! other)
  ∧ images (delete_user user_id false w).1 = images w.
Proof.
  assert (Hgone : ∀ u, u ∈ load_users (delete_user user_id delete_images w).1
                       → record_id u ≠ user_id).
  { intros u. unfold delete_user.
    destruct (filter_length_all (fun u => negb (record_id u =? user_id))
                                (load_users w)) as (_ & _ & Hall).
    destruct (decide (length _ = length (load_users w))) as [Hlen|Hlen].
    - simpl. intros Hu. pose proof (proj1 Hall Hlen u Hu) as Hf.
      apply negb_true_iff, Z.eqb_neq in Hf. exact Hf.
    - intros Hu.
      assert (Hin : u ∈ List.filter
                          (fun u => negb (record_id u =? user_id))
                          (load_users w))
        by (destruct delete_images; exact Hu).
      apply list_elem_of_In, filter_In in Hin as [_ Hf].
      apply negb_true_iff, Z.eqb_neq in Hf. exact Hf. }
  split; [exact Hgone|]. split; [|split].
  - apply (proj1 (delete_user_cases _ user_id delete_images)). exact Hgone.
  - intros other Hother. unfold delete_user.
    destruct (decide (length _ = length (load_users w))); [reflexivity|].
    destruct delete_images; simpl; [|reflexivity].
    apply lookup_delete_ne. congruence.
  - unfold delete_user.
    destruct (decide (length _ = length (load_users w))); reflexivity.
Qed.

(** X4. After [delete_user] no record carries the id, a second call
    returns [False] and changes nothing, the image directories of the
    other subjects are untouched, and with [delete_images=False] no
    directory is removed at all. *)
Theorem delete_user_idempotent
    (user_id : Z) (delete_images : bool) (w : world) :
  (∀ u, u ∈ load_users (delete_user user_id delete_images w).1 →
        record_id u ≠ user_id)
  ∧ delete_user user_id delete_images (delete_user user_id delete_images w).1
    = ((delete_user user_id delete_images w).1, false)
  ∧ (∀ other, other ≠ user_id →
              images (delete_user user_id delete_images w).1 !! other
              = images w !! other)
  ∧ images (delete_user user_id false w).1 = images w.
Proof. exact (delete_user_idempotent_aux user_id delete_images w). Qed.

End RegistryIds.


(** ** Sessions after a deletion *)

Section AfterDeletion.

Context {D : nat}.
Variable strftime : Z → string.

Lemma active_ids_record (users : list user) (id : Z) :
  id ∈ active_ids users → ∃ u, u ∈ users ∧ record_id u = id.
Proof.
  unfold active_ids. rewrite elem_of_list_to_set, list_elem_of_omap.
  intros (u & Hu & Hid). exists u. split; [exact Hu|].
  unfold record_id. rewrite Hid. reflexivity.
Qed.

(** X5. A session opened on the registry left by [delete_user] never
    displays a match and never logs an access event for the deleted id,
    whatever [embeddings.pkl] and the trained classifier still hold. *)
Theorem deleted_subject_never_recognized
    (threshold : R) (camera : option (list (option (frame D))))
    (embeddings : list (embedding_record D))
    (bundle : option (classifier_bundle D))
    (w : world) (user_id : Z) (delete_images : bool)
    (out : frame_output D) :
  out ∈ recognize_from_camera strftime threshold camera embeddings
          (load_users (delete_user user_id delete_images w).1) bundle →
  (∀ md, out_match out = Some md → match_id md ≠ Some user_id)
  ∧ (∀ ev, out_access out = Some ev → match_id (ev_user ev) ≠ Some user_id).
Proof.
  set (users := load_users (delete_user user_id delete_images w).1).
  assert (Hout : user_id ∉ active_ids users).
  { intros Hin. apply active_ids_record in Hin as (u & Hu & Hid).
    exact (proj1 (delete_user_idempotent_aux user_id delete_images w)
                 u Hu Hid). }
  assert (Hactive : ∀ md : match_dict D,
            has_active_id (active_ids users) md →
            match_id md ≠ Some user_id).
  { intros md (id & Hid & Hin) Heq. rewrite Hid in Heq.
    injection Heq as ->. contradiction. }
  unfold recognize_from_camera.
  destruct camera as [reads|];
    [|intros Hin; apply elem_of_nil in Hin; contradiction].
  intros Hin. revert out Hin.
  apply (camera_loop_outputs strftime
           (λ out, (∀ md, out_match out = Some md →
                          match_id md ≠ Some user_id)
                   ∧ (∀ ev, out_access out = Some ev →
                            match_id (ev_user ev) ≠ Some user_id))
           (open_session threshold embeddings users bundle)).
  intros st f. split.
  - intros md Hm. apply Hactive.
    exact (process_frame_match strftime _ st f md Hm).
  - intros ev Hev. apply Hactive.
    apply (process_frame_access strftime) in Hev as [q Hq].
    exact (match_engine_active threshold embeddings users bundle q _ Hq).
Qed.

End AfterDeletion.

(** ** The distance matcher and its threshold *)

Section Threshold.

Context {D : nat}.

Lemma norm_nonneg {n : nat} (v : vec R n) : (0 <= Np.norm v)%R.
Proof. unfold Np.norm. apply sqrt_pos. Qed.

Lemma normalized_distances_nonneg
    (q : vec R D) (embeddings : list (embedding_record D)) (i : nat) :
  (0 <= nth i (normalized_distances q embeddings) 0)%R.
Proof.
  rewrite normalized_distances_spec, nth_lookup.
  change (map (spec_distance q) embeddings)
    with (spec_distance q <$> embeddings).
  rewrite list_lookup_fmap.
  destruct (embeddings !! i) as [e|]; simpl; [apply norm_nonneg|lra].
Qed.

(** X6. The distance that [_find_best_match] returns does not depend on
    the threshold and is never negative; a threshold that is not positive
    matches nothing; a match under one threshold is the match under every
    larger one; and a match is always one of the given references. *)
Theorem find_best_match_threshold
    (q : vec R D) (embeddings : list (embedding_record D))
    (threshold threshold' : R) :
  (_find_best_match q embeddings threshold).2
  = (_find_best_match q embeddings threshold').2
  ∧ (∀ d, (_find_best_match q embeddings threshold).2 = Some d → (0 <= d)%R)
  ∧ ((threshold <= 0)%R → (_find_best_match q embeddings threshold).1 = None)
  ∧ (∀ e, (threshold <= threshold')%R →
          (_find_best_match q embeddings threshold).1 = Some e →
          (_find_best_match q embeddings threshold').1 = Some e)
  ∧ (∀ e, (_find_best_match q embeddings threshold).1 = Some e →
          e ∈ embeddings).
Proof.
  unfold _find_best_match.
  destruct embeddings as [|e0 es].
  { simpl. repeat split; try discriminate; auto. }
  cbv beta iota zeta.
  set (dists := normalized_distances q (e0 :: es)).
  pose proof (normalized_distances_nonneg q (e0 :: es) (Np.argmin dists))
    as Hpos.
  fold dists in Hpos.
  destruct (Rlt_dec (nth (Np.argmin dists) dists 0%R) threshold) as [Hlt|Hge];
    destruct (Rlt_dec (nth (Np.argmin dists) dists 0%R) threshold')
      as [Hlt'|Hge']; simpl;
    (split; [reflexivity|]);
    (split; [intros d [= <-]; exact Hpos|]);
    (split; [intros Hle; try reflexivity; exfalso; lra|]);
    (split; [intros e Hle He; try discriminate; try exact He; exfalso; lra|]);
    intros e He; try discriminate;
    apply list_elem_of_lookup_2 in He; exact He.
Qed.

End Threshold.

(** ** The liveness counter *)

Section LivenessBounds.

Lemma liveness_filter_counter (prev : option (list Z)) (sf : Z) (c : list Z) :
  0 <= sf →
  0 <= (liveness_filter prev sf c).1.2 <= sf + 1
  ∧ ((liveness_filter prev sf c).2 = false
     ↔ LIVENESS_STATIC_FRAMES <= (liveness_filter prev sf c).1.2)
  ∧ (prev = None → (liveness_filter prev sf c).1.2 = 0).
Proof.
  intros Hsf. unfold liveness_filter. cbn [fst snd]. split; [|split].
  - destruct prev as [p|]; [|lia].
    destruct (decide (length p = length c)); [|lia].
    destruct (Np.mean (Np.absdiff c p)) as [m|]; [|lia].
    destruct (Qlt_le_dec m LIVENESS_DIFF_THRESHOLD); lia.
  - destruct (LIVENESS_STATIC_FRAMES <=? _) eqn:Hs.
    + apply Z.leb_le in Hs. tauto.
    + apply Z.leb_gt in Hs. split; [discriminate|lia].
  - intros ->. reflexivity.
Qed.

Lemma liveness_run_counter (crops : list (list Z)) :
  ∀ prev sf (k : nat) c v,
    0 <= sf →
    liveness_run prev sf crops !! k = Some (c, v) →
    0 <= c <= sf + 1 + Z.of_nat k
    ∧ (v = false ↔ LIVENESS_STATIC_FRAMES <= c).
Proof.
  induction crops as [|crop rest IH]; intros prev sf k c v Hsf;
    cbn [liveness_run]; [discriminate|].
  pose proof (liveness_filter_counter prev sf crop Hsf) as (Hc & Hv & _).
  destruct (liveness_filter prev sf crop) as [[prev' sf'] live].
  cbn [fst snd] in Hc, Hv. destruct k as [|k]; simpl.
  - intros [= <- <-]. split; [lia|exact Hv].
  - intros Hk. destruct (IH prev' sf' k c v ltac:(lia) Hk) as [Hb Hs].
    split; [lia|exact Hs].
Qed.

(** X7. Through any sequence of crops the static counter after the k-th
    crop of a session (counted from 0) is between 0 and k, so none of the
    first ten frames with a face can be classified static, however similar
    the crops are. *)
Theorem liveness_never_static_in_first_ten
    (crops : list (list Z)) (k : nat) (c : Z) (v : bool) :
  liveness_run None 0 crops !! k = Some (c, v) →
  0 <= c <= Z.of_nat k
  ∧ (v = false ↔ LIVENESS_STATIC_FRAMES <= c)
  ∧ ((k < 10)%nat → v = true).
Proof.
  destruct crops as [|crop rest]; [discriminate|].
  cbn [liveness_run]. rewrite liveness_first. destruct k as [|k]; simpl.
  - intros [= <- <-]. split; [lia|]. split; [|reflexivity].
    unfold LIVENESS_STATIC_FRAMES. split; [discriminate|lia].
  - intros Hk.
    destruct (liveness_run_counter rest (Some crop) 0 k c v ltac:(lia) Hk)
      as [Hb Hs].
    split; [lia|]. split; [exact Hs|].
    intros Hlt. destruct v; [reflexivity|].
    exfalso. unfold LIVENESS_STATIC_FRAMES in Hs.
    pose proof (proj1 Hs eq_refl). lia.
Qed.

End LivenessBounds.

Lemma identical_run_index_nine :
  liveness_run None 0 (replicate 12 (flat_crop 128)) !! 9%nat
  = Some (9, true).
Proof. vm_compute. reflexivity. Qed.

Lemma liveness_never_static_in_first_ten_witness :
  0 <= 9 <= Z.of_nat 9 ∧ true = true.
Proof.
  destruct (liveness_never_static_in_first_ten
              (replicate 12 (flat_crop 128)) 9 9 true
              identical_run_index_nine)
    as (Hc & _ & Hv).
  split; [exact Hc|]. apply Hv. lia.
Defined.

(** ** Time between sighting and access *)

Section AccessTiming.

Context {D : nat}.
Variable strftime : Z → string.

Lemma stability_gate_start (st : loop_state) (cur : option Z) (now : Z) :
  (pending_start_time (stability_gate st cur now).1 = pending_start_time st
   ∨ pending_start_time (stability_gate st cur now).1 = None
   ∨ pending_start_time (stability_gate st cur now).1 = Some now)
  ∧ ((stability_gate st cur now).2 = true →
     ∃ t0, pending_start_time st = Some t0 ∧ t0 + STABILITY_WINDOW <= now).
Proof.
  unfold stability_gate. destruct cur as [id|]; simpl;
    [|split; [auto|discriminate]].
  destruct (decide (pending_user_id st ≠ Some id)); simpl;
    [split; [auto|discriminate]|].
  destruct (pending_start_time st) as [t0|] eqn:Ht; simpl;
    [|split; [auto|discriminate]].
  destruct (STABILITY_WINDOW <=? now - t0) eqn:Hw; simpl;
    [|split; [auto|discriminate]].
  destruct (bool_decide _); simpl; [split; [auto|discriminate]|].
  apply Z.leb_le in Hw. split; [auto|]. intros _. exists t0.
  split; [reflexivity|lia].
Qed.

Lemma process_face_start
    (st : loop_state) (f : frame D) (r : rep D) (m : option (match_dict D)) :
  (pending_start_time (process_face strftime st f r m).1.1.1
   = pending_start_time st
   ∨ pending_start_time (process_face strftime st f r m).1.1.1 = None
   ∨ pending_start_time (process_face strftime st f r m).1.1.1
     = Some (frame_now f))
  ∧ (∀ ev, (process_face strftime st f r m).2 = Some ev →
           ev_timestamp ev = strftime (frame_now f)
           ∧ ∃ t0, pending_start_time st = Some t0
                   ∧ t0 + STABILITY_WINDOW <= frame_now f).
Proof.
  unfold process_face.
  destruct (rep_facial_area r) as [fa|]; [|split; [auto|discriminate]].
  destruct (clamp_roi f fa) as [[[[x y] x2] y2]|];
    [|split; [auto|discriminate]].
  destruct (liveness_filter _ _ _) as [[prev sf] live].
  destruct m as [md|]; [|split; [auto|discriminate]].
  destruct live; [|split; [auto|discriminate]].
  pose proof (stability_gate_start (set_liveness st prev sf) (match_id md)
                                   (frame_now f)) as [Hstart Hfire].
  destruct (stability_gate _ _ _) as [st2 confirmed]. simpl in *.
  split; [exact Hstart|].
  destruct confirmed; [|discriminate].
  intros ev [= <-]. split; [reflexivity|]. apply Hfire. reflexivity.
Qed.

Lemma process_frame_start
    (ss : session D) (st : loop_state) (f : frame D) :
  (pending_start_time (process_frame strftime ss st f).1
   = pending_start_time st
   ∨ pending_start_time (process_frame strftime ss st f).1 = None
   ∨ pending_start_time (process_frame strftime ss st f).1
     = Some (frame_now f))
  ∧ (∀ ev, out_access (process_frame strftime ss st f).2 = Some ev →
           ev_timestamp ev = strftime (frame_now f)
           ∧ ∃ t0, pending_start_time st = Some t0
                   ∧ t0 + STABILITY_WINDOW <= frame_now f).
Proof.
  unfold process_frame.
  destruct (frame_represent f) as [nf|[|r rs]];
    try (split; [auto|discriminate]).
  pose proof (process_face_start st f r
                (er_match (match_engine ss (rep_embedding r))))
    as [Hstart Hfire].
  destruct (process_face strftime st f r _) as [[[st1 is_live] box] access].
  simpl in Hstart, Hfire.
  destruct (recheck_active _ _); simpl; auto.
Qed.

Lemma camera_loop_access_after_window
    (ss : session D) (reads : list (option (frame D))) :
  ∀ st (seen : list Z) (k : nat) o ev,
    (∀ t0, pending_start_time st = Some t0 → t0 ∈ seen) →
    (camera_loop strftime ss st reads).2 !! k = Some o →
    out_access o = Some ev →
    ∃ fk t0,
      reads !! k = Some (Some fk)
      ∧ ev_timestamp ev = strftime (frame_now fk)
      ∧ t0 + STABILITY_WINDOW <= frame_now fk
      ∧ (t0 ∈ seen
         ∨ ∃ j fj, (j < k)%nat ∧ reads !! j = Some (Some fj)
                   ∧ frame_now fj = t0).
Proof.
  induction reads as [|[f|] rest IH]; intros st seen k o ev Hseen;
    try (simpl; discriminate).
  rewrite camera_loop_cons.
  pose proof (process_frame_start ss st f) as [Hstart Hfire].
  destruct k as [|k]; simpl.
  - intros [= <-] Hev. destruct (Hfire ev Hev) as (Hts & t0 & Ht0 & Hw).
    exists f, t0. repeat split; auto.
  - intros Hk Hev.
    destruct (is_quit_key (frame_key f)); [discriminate|].
    destruct (IH (process_frame strftime ss st f).1 (frame_now f :: seen)
                 k o ev) as (fk & t0 & Hfk & Hts & Hw & Hsrc); auto.
    { intros t0 Ht0.
      destruct Hstart as [Hs|[Hs|Hs]]; rewrite Hs in Ht0.
      - right. auto.
      - discriminate.
      - injection Ht0 as <-. left. }
    exists fk, t0. repeat split; auto.
    destruct Hsrc as [Hin|(j & fj & Hj & Hfj & Hnow)].
    + apply elem_of_cons in Hin as [->|Hin]; [|auto].
      right. exists 0%nat, f. split; [lia|]. split; reflexivity.
    + right. exists (S j), fj. split; [lia|]. split; [exact Hfj|exact Hnow].
Qed.

(** X8. In a session every access event is logged in a frame that comes
    at least three seconds after an earlier frame of the same session:
    nothing is logged from a single sighting. The timestamp written is
    that of the confirming frame. *)
Theorem access_needs_two_frames_three_seconds_apart
    (ss : session D) (reads : list (option (frame D)))
    (k : nat) (o : frame_output D) (ev : access_event D) :
  (camera_loop strftime ss initial_state reads).2 !! k = Some o →
  out_access o = Some ev →
  ∃ j fj fk,
    (j < k)%nat
    ∧ reads !! j = Some (Some fj) ∧ reads !! k = Some (Some fk)
    ∧ frame_now fj + STABILITY_WINDOW <= frame_now fk
    ∧ ev_timestamp ev = strftime (frame_now fk).
Proof.
  intros Hk Hev.
  destruct (camera_loop_access_after_window ss reads initial_state [] k o ev)
    as (fk & t0 & Hfk & Hts & Hw & Hsrc); auto.
  { intros t0 Ht0. discriminate. }
  destruct Hsrc as [Hin|(j & fj & Hj & Hfj & Hnow)].
  - apply elem_of_nil in Hin. contradiction.
  - exists j, fj, fk. subst t0. auto 10.
Qed.

Lemma camera_loop_length
    (ss : session D) (reads : list (option (frame D))) :
  ∀ st, (length (camera_loop strftime ss st reads).2 <= length reads)%nat.
Proof.
  induction reads as [|[f|] rest IH]; intros st; try (simpl; lia).
  rewrite camera_loop_cons.
  destruct (is_quit_key (frame_key f)); simpl; [lia|].
  specialize (IH (process_frame strftime ss st f).1). lia.
Qed.

Lemma camera_loop_state_cons
    (ss : session D) (st : loop_state) (f : frame D)
    (rest : list (option (frame D))) :
  (camera_loop strftime ss st (Some f :: rest)).1
  = if is_quit_key (frame_key f) then (process_frame strftime ss st f).1
    else (camera_loop strftime ss (process_frame strftime ss st f).1 rest).1.
Proof.
  simpl. destruct (process_frame strftime ss st f) as [st1 out]. simpl.
  destruct (is_quit_key (frame_key f)); [reflexivity|].
  destruct (camera_loop strftime ss st1 rest). reflexivity.
Qed.

(** X9. The loop processes the reads in order, each frame in the state
    left by the frames before it, and stops at the first read that fails
    and after the first frame whose key is Q: there is a [k]-th output
    exactly when the [k]-th read gave a frame and every read before it gave
    a frame without the quit key, and that output is the one of
    [process_frame] on the [k]-th frame in the state reached through the
    first [k] reads. There are never more outputs than reads. *)
Theorem camera_loop_stops_at_quit
    (ss : session D) (reads : list (option (frame D))) (st : loop_state)
    (k : nat) (o : frame_output D) :
  ((camera_loop strftime ss st reads).2 !! k = Some o
   ↔ ∃ fk,
       reads !! k = Some (Some fk)
       ∧ (∀ j, (j < k)%nat →
               ∃ fj, reads !! j = Some (Some fj)
                     ∧ is_quit_key (frame_key fj) = false)
       ∧ o = (process_frame strftime ss
                (camera_loop strftime ss st (take k reads)).1 fk).2)
  ∧ (length (camera_loop strftime ss st reads).2 <= length reads)%nat.
Proof.
  split; [|apply camera_loop_length].
  revert st k.
  induction reads as [|[f|] rest IH]; intros st k.
  - simpl. split; [discriminate|]. intros (fk & Hk & _).
    rewrite lookup_nil in Hk. discriminate.
  - rewrite camera_loop_cons. destruct k as [|k].
    + simpl. split.
      * intros [= <-]. exists f. split; [reflexivity|].
        split; [intros j Hj; lia|reflexivity].
      * intros (fk & [= <-] & _ & ->). reflexivity.
    + cbn [take]. rewrite camera_loop_state_cons. simpl.
      destruct (is_quit_key (frame_key f)) eqn:Hq.
      * split; [discriminate|]. intros (fk & _ & Hbefore & _).
        destruct (Hbefore 0%nat ltac:(lia)) as (fj & [= <-] & Hnq).
        congruence.
      * rewrite (IH (process_frame strftime ss st f).1 k). split.
        -- intros (fk & Hk & Hbefore & Ho). exists fk.
           split; [exact Hk|]. split; [|exact Ho].
           intros [|j] Hj; simpl; [eauto|]. apply Hbefore. lia.
        -- intros (fk & Hk & Hbefore & Ho). exists fk.
           split; [exact Hk|]. split; [|exact Ho].
           intros j Hj. apply (Hbefore (S j)). lia.
  - simpl. split; [discriminate|]. intros (fk & Hk & Hbefore & _).
    destruct k as [|k]; [discriminate|].
    destruct (Hbefore 0%nat ltac:(lia)) as (fj & Hfj & _). discriminate.
Qed.

End AccessTiming.

#[local] Arguments flat_crop : simpl never.

Lemma liveness_second_sighting :
  liveness_filter (Some (flat_crop 128)) 0 (flat_crop 130)
  = (Some (flat_crop 130), 0, true).
Proof. vm_compute. reflexivity. Qed.

Lemma first_sighting_step :
  process_frame example_strftime stale_session initial_state first_sighting
  = (LoopState (Some (flat_crop 128)) 0 None (Some 1) (Some 0), first_output).
Proof.
  unfold process_frame, first_sighting. cbn [frame_represent rep_embedding].
  rewrite stale_engine. cbn [er_match er_dist er_best_proba].
  rewrite recheck_ana. unfold process_face.
  cbn [rep_facial_area]. reflexivity.
Qed.

Lemma second_sighting_step :
  process_frame example_strftime stale_session
    (LoopState (Some (flat_crop 128)) 0 None (Some 1) (Some 0))
    second_sighting
  = (LoopState (Some (flat_crop 130)) 0 (Some 1) (Some 1) (Some 0),
     second_output).
Proof.
  unfold process_frame, second_sighting. cbn [frame_represent rep_embedding].
  rewrite stale_engine. cbn [er_match er_dist er_best_proba].
  rewrite recheck_ana. unfold process_face.
  cbn [rep_facial_area frame_gray_roi prev_face_roi_gray static_frames].
  change (clamp_roi _ (FacialArea 10 10 100 100))
    with (Some (10, 10, 110, 110)).
  cbv iota beta. rewrite liveness_second_sighting. reflexivity.
Qed.

Lemma granting_session_outputs :
  (camera_loop example_strftime stale_session initial_state
               [Some first_sighting; Some second_sighting]).2
  = [first_output; second_output].
Proof.
  rewrite camera_loop_cons, first_sighting_step. cbn [fst snd].
  change (is_quit_key (frame_key first_sighting)) with false. cbv iota.
  rewrite camera_loop_cons, second_sighting_step. reflexivity.
Qed.

(** The frame that shows subject 1 is matched to subject 1 while the
    subject is registered; in the session opened after the deletion, on the
    same descriptor file and classifier, no match of that frame carries
    id 1. *)
Lemma deleted_subject_never_recognized_witness :
  out_match (process_frame example_strftime stale_session initial_state
                           first_sighting).2
  = Some (DistanceMatch ana)
  ∧ ∀ md,
      out_match (process_frame example_strftime session_without_ana
                               initial_state first_sighting).2 = Some md →
      match_id md ≠ Some 1.
Proof.
  split; [rewrite first_sighting_step; reflexivity|].
  apply (proj1 (deleted_subject_never_recognized example_strftime
                  DEFAULT_THRESHOLD (Some [Some first_sighting]) [ana; bruno]
                  (Some (ClassifierBundle 1 (Some stale_classifier) ∅))
                  world_ana_bruno 1 true
                  (process_frame example_strftime session_without_ana
                                 initial_state first_sighting).2
                  ltac:(unfold recognize_from_camera;
                        rewrite camera_loop_cons; left))).
Defined.

Lemma access_needs_two_frames_three_seconds_apart_witness :
  ∃ j fj fk,
    (j < 1)%nat
    ∧ [Some first_sighting; Some second_sighting] !! j = Some (Some fj)
    ∧ [Some first_sighting; Some second_sighting] !! 1%nat = Some (Some fk)
    ∧ frame_now fj + STABILITY_WINDOW <= frame_now fk
    ∧ ev_timestamp (AccessEvent 1 (DistanceMatch ana)
                                (example_strftime 3000000))
      = example_strftime (frame_now fk).
Proof.
  apply (access_needs_two_frames_three_seconds_apart example_strftime
           stale_session [Some first_sighting; Some second_sighting]
           1 second_output).
  - rewrite granting_session_outputs. reflexivity.
  - reflexivity.
Defined.

(** After a first frame without the quit key the loop goes on to the
    second read. *)
Lemma camera_loop_stops_at_quit_witness :
  (camera_loop example_strftime stale_session initial_state
               [Some first_sighting; Some second_sighting]).2 !! 1%nat
  = Some (process_frame example_strftime stale_session
            (camera_loop example_strftime stale_session initial_state
                         (take 1 [Some first_sighting; Some second_sighting])).1
            second_sighting).2.
Proof.
  apply (proj2 (proj1 (camera_loop_stops_at_quit example_strftime
                         stale_session
                         [Some first_sighting; Some second_sighting]
                         initial_state 1 _))).
  exists second_sighting. split; [reflexivity|]. split; [|reflexivity].
  intros [|j] Hj; [|lia]. exists first_sighting. split; reflexivity.
Defined.

(** ** The enrollment loop: counters and files *)

Section EnrollmentCounters.

Context {D : nat}.

Lemma capture_liveness_inv (cs : capture_state) (f : frame D) :
  0 <= c_static_frames cs → 0 <= live_stable_frames cs →
  captured (capture_liveness cs f).1 = captured cs
  ∧ frame_count (capture_liveness cs f).1 = frame_count cs
  ∧ 0 <= c_static_frames (capture_liveness cs f).1
  ∧ 0 <= live_stable_frames (capture_liveness cs f).1
       <= live_stable_frames cs + 1.
Proof.
  intros Hs Hl. unfold capture_liveness.
  destruct (frame_represent f) as [nf|[|r rs]]; try (simpl; lia).
  destruct (rep_facial_area r) as [fa|]; [|simpl; lia].
  destruct (clamp_roi f fa) as [box|]; [|simpl; lia].
  pose proof (liveness_filter_counter (c_prev_face_roi_gray cs)
                (c_static_frames cs) (frame_gray_roi f) Hs) as (Hc & _ & _).
  destruct (liveness_filter _ _ _) as [[prev sf] live]. simpl in Hc.
  destruct live; simpl; lia.
Qed.

Lemma capture_step_inv
    (num_images user_id : Z) (cs : capture_state) (w : world) (f : frame D)
    (n : Z) :
  capture_inv num_images cs n →
  capture_inv num_images (capture_step num_images user_id cs w f).1.1 (n + 1).
Proof.
  unfold capture_inv. intros (Hl & Hf & Hc & H5 & Hmax & Hs).
  unfold capture_step.
  pose proof (capture_liveness_inv cs f Hs ltac:(lia))
    as (Hcap & Hfc & Hs1 & Hl1).
  destruct (capture_liveness cs f) as [cs1 has_live_face].
  cbn [fst snd] in *.
  destruct (has_live_face && (STABLE_LIVE_FRAMES <=? live_stable_frames cs1))
    eqn:Hgo;
    [|cbn [captured frame_count c_static_frames live_stable_frames fst snd];
      lia].
  apply andb_true_iff in Hgo as [_ Hstable]. apply Z.leb_le in Hstable.
  unfold STABLE_LIVE_FRAMES in Hstable.
  unfold CAPTURE_INTERVAL.
  destruct ((frame_count cs1 + 1) mod 5 =? 0) eqn:Hmod;
    [|clear Hmod;
      cbn [captured frame_count c_static_frames live_stable_frames
           fst snd andb]; lia].
  apply Z.eqb_eq in Hmod.
  destruct (captured cs1 <? num_images) eqn:Hroom;
    [|clear Hmod;
      cbn [captured frame_count c_static_frames live_stable_frames
           fst snd andb]; lia].
  apply Z.ltb_lt in Hroom. cbn [andb].
  pose proof (Z.div_mod (frame_count cs1 + 1) 5 ltac:(lia)) as Hdiv.
  rewrite Hmod in Hdiv. clear Hmod.
  set (q := (frame_count cs1 + 1) / 5) in Hdiv.
  destruct (num_images <=? _);
    cbn [captured frame_count c_static_frames live_stable_frames fst snd];
    lia.
Qed.

Lemma capture_loop_inv
    (num_images user_id : Z) (reads : list (option (frame D))) :
  ∀ cs w n,
    capture_inv num_images cs n →
    ∃ n', n' <= n + Z.of_nat (length reads)
          ∧ capture_inv num_images
              (capture_loop num_images user_id cs w reads).1 n'.
Proof.
  induction reads as [|[f|] rest IH]; intros cs w n Hinv;
    try (exists n; simpl; split; [lia|exact Hinv]).
  cbn [capture_loop].
  pose proof (capture_step_inv num_images user_id cs w f n Hinv) as Hstep.
  destruct (capture_step num_images user_id cs w f) as [[cs1 w1] stop].
  cbn [fst snd] in Hstep. destruct stop.
  - exists (n + 1). split; [simpl length; lia|exact Hstep].
  - destruct (IH cs1 w1 (n + 1) Hstep) as (n' & Hn' & Hinv').
    exists n'. split; [simpl length; lia|exact Hinv'].
Qed.

(** X10. The enrollment loop captures at most [num_images] images, and
    [k] captured images take at least [5 k + 4] frames: five live frames
    arm the capture and every fifth frame after that is saved. With fewer
    than nine reads nothing is captured and [capture_user_faces] returns
    [None]. *)
Theorem capture_needs_nine_frames
    (name cpf : string) (num_images : Z)
    (reads : list (option (frame D))) (w : world) :
  0 <= captured (enrollment_run name cpf num_images reads w).1.2
  ∧ captured (enrollment_run name cpf num_images reads w).1.2
    <= Z.max 0 num_images
  ∧ (0 < captured (enrollment_run name cpf num_images reads w).1.2 →
     5 * captured (enrollment_run name cpf num_images reads w).1.2 + 4
     <= Z.of_nat (length reads))
  ∧ ((length reads < 9)%nat →
     (capture_user_faces name cpf num_images (Some reads) w).2 = None).
Proof.
  assert (Hrun : ∃ n, n <= Z.of_nat (length reads)
                      ∧ capture_inv num_images
                          (enrollment_run name cpf num_images reads w).1.2 n).
  { unfold enrollment_run.
    destruct (register_user name cpf w) as [w1 uid].
    destruct (capture_loop_inv num_images uid reads
                (CaptureState 0 0 None 0 0)
                (_create_user_image_dir uid w1) 0)
      as (n & Hn & Hinv).
    { unfold capture_inv. simpl. lia. }
    destruct (capture_loop _ _ _ _ reads) as [cs w3].
    exists n. split; [lia|exact Hinv]. }
  destruct Hrun as (n & Hn & (Hl & Hf & Hc & H5 & Hmax & Hs)).
  split; [exact Hc|]. split; [exact Hmax|]. split; [lia|].
  intros Hshort. unfold capture_user_faces.
  destruct (enrollment_run name cpf num_images reads w) as [[uid cs] w3].
  cbn [fst snd] in *.
  assert (captured cs = 0) as -> by lia. reflexivity.
Qed.

Lemma sorted_insert_elem (name x : string) (names : list string) :
  x ∈ sorted_insert name names ↔ x = name ∨ x ∈ names.
Proof.
  induction names as [|n rest IH]; simpl.
  - rewrite list_elem_of_singleton, elem_of_nil. tauto.
  - destruct (String.eqb name n) eqn:Heq.
    + apply String.eqb_eq in Heq. subst n.
      rewrite elem_of_cons. tauto.
    + destruct (String.leb name n).
      * rewrite elem_of_cons. tauto.
      * rewrite !elem_of_cons, IH. tauto.
Qed.

Lemma capture_step_files
    (num_images user_id : Z) (w0 : world) (cs : capture_state) (w : world)
    (f : frame D) :
  0 <= c_static_frames cs → 0 <= live_stable_frames cs →
  files_inv user_id w0 cs w →
  files_inv user_id w0 (capture_step num_images user_id cs w f).1.1
            (capture_step num_images user_id cs w f).1.2.
Proof.
  intros Hs Hl ((names & Hdir & Hfiles) & Hother & Hreg).
  unfold capture_step.
  pose proof (capture_liveness_inv cs f Hs Hl) as (Hcap & _).
  destruct (capture_liveness cs f) as [cs1 has_live_face].
  cbn [fst snd] in *.
  assert (Hsame : files_inv user_id w0 cs1 w).
  { split; [|split; assumption].
    exists names. split; [exact Hdir|]. rewrite Hcap. exact Hfiles. }
  destruct (has_live_face && _); [|exact Hsame].
  destruct (_ && _); [|destruct Hsame as ((ns & Hd & Hf) & Ho & Hr);
                       split; [|split; assumption]; exists ns; auto].
  assert (Hnew : files_inv user_id w0
            (CaptureState (captured cs1 + 1) (frame_count cs1 + 1)
               (c_prev_face_roi_gray cs1) (c_static_frames cs1)
               (live_stable_frames cs1))
            (imwrite user_id (image_name (captured cs1)) w)).
  { split; [|split].
    - exists (sorted_insert (image_name (captured cs1)) names).
      unfold imwrite. simpl. rewrite lookup_insert_eq, Hdir. simpl.
      split; [reflexivity|].
      intros k Hk. apply sorted_insert_elem.
      destruct (decide (k = captured cs1)) as [->|Hne]; [left; reflexivity|].
      right. apply Hfiles. lia.
    - intros other Hne. unfold imwrite. simpl.
      rewrite lookup_insert_ne by congruence. apply Hother. exact Hne.
    - exact Hreg. }
  destruct (num_images <=? _); exact Hnew.
Qed.

Lemma capture_loop_files
    (num_images user_id : Z) (w0 : world) (reads : list (option (frame D))) :
  ∀ cs w n,
    capture_inv num_images cs n →
    files_inv user_id w0 cs w →
    files_inv user_id w0 (capture_loop num_images user_id cs w reads).1
              (capture_loop num_images user_id cs w reads).2.
Proof.
  induction reads as [|[f|] rest IH]; intros cs w n Hinv Hfiles;
    try exact Hfiles.
  cbn [capture_loop].
  pose proof (capture_step_inv num_images user_id cs w f n Hinv) as Hstep.
  destruct Hinv as (Hl & _ & _ & _ & _ & Hs).
  pose proof (capture_step_files num_images user_id w0 cs w f Hs
                ltac:(lia) Hfiles) as Hf1.
  destruct (capture_step num_images user_id cs w f) as [[cs1 w1] stop].
  cbn [fst snd] in *. destruct stop; [exact Hf1|].
  apply (IH cs1 w1 (n + 1)); assumption.
Qed.

(** X11. When [capture_user_faces] returns an id, the registry is the
    former list followed by one record with that id, the given name and
    the cpf when it is not empty; the directory of the id exists and holds
    [000.jpg] and every further numbered image up to the count captured;
    the directories of the other subjects are as before. *)
Theorem capture_success_postcondition
    (name cpf : string) (num_images : Z)
    (reads : list (option (frame D))) (w : world) (id : Z) :
  (capture_user_faces name cpf num_images (Some reads) w).2 = Some id →
  id = get_next_user_id (load_users w)
  ∧ load_users (capture_user_faces name cpf num_images (Some reads) w).1
    = load_users w
      ++ [User (Some id) (Some name)
               (if nonempty cpf then Some cpf else None)]
  ∧ (∃ names,
       images (capture_user_faces name cpf num_images (Some reads) w).1 !! id
       = Some names
       ∧ image_name 0 ∈ names
       ∧ ∀ k, 0 <= k
              < captured (enrollment_run name cpf num_images reads w).1.2 →
              image_name k ∈ names)
  ∧ (∀ other, other ≠ id → is_Some (images w !! other) →
       images (capture_user_faces name cpf num_images (Some reads) w).1
       !! other = images w !! other).
Proof.
  destruct (enrollment_run_registry name cpf num_images reads w)
    as [Huid Husers].
  assert (Hfiles :
    files_inv (get_next_user_id (load_users w))
      (_create_user_image_dir (get_next_user_id (load_users w))
         (register_user name cpf w).1)
      (enrollment_run name cpf num_images reads w).1.2
      (enrollment_run name cpf num_images reads w).2
    ∧ 0 <= captured (enrollment_run name cpf num_images reads w).1.2).
  { unfold enrollment_run.
    change (register_user name cpf w)
      with ((register_user name cpf w).1, get_next_user_id (load_users w)).
    cbv iota beta.
    set (uid := get_next_user_id (load_users w)).
    set (w2 := _create_user_image_dir uid (register_user name cpf w).1).
    assert (Hinv0 : capture_inv num_images (CaptureState 0 0 None 0 0) 0)
      by (unfold capture_inv; simpl; lia).
    pose proof (capture_loop_files num_images uid w2 reads
                  (CaptureState 0 0 None 0 0) w2 0 Hinv0) as Hf.
    destruct (capture_loop_inv num_images uid reads
                (CaptureState 0 0 None 0 0) w2 0 Hinv0)
      as (n & _ & (_ & _ & Hc & _)).
    destruct (capture_loop num_images uid (CaptureState 0 0 None 0 0) w2 reads)
      as [cs w3].
    cbn [fst snd] in *. split; [|exact Hc].
    apply Hf. split; [|split; [reflexivity|reflexivity]].
    unfold w2, _create_user_image_dir.
    destruct (images (register_user name cpf w).1 !! uid) as [ns|] eqn:Hd.
    - exists ns. split; [exact Hd|]. simpl. intros k Hk. lia.
    - exists []. simpl. rewrite lookup_insert_eq.
      split; [reflexivity|]. intros k Hk. lia. }
  destruct Hfiles as [((names & Hdir & Hnames) & Hother & _) Hcap].
  unfold capture_user_faces.
  destruct (enrollment_run name cpf num_images reads w) as [[uid cs] w3].
  cbn [fst snd] in *. subst uid.
  destruct (captured cs =? 0) eqn:Hzero; [discriminate|].
  apply Z.eqb_neq in Hzero. cbn [fst snd]. intros [= <-].
  split; [reflexivity|]. split; [exact Husers|]. split.
  - exists names. split; [exact Hdir|]. split; [apply Hnames; lia|exact Hnames].
  - intros other Hne Hsome. rewrite (Hother other Hne).
    unfold _create_user_image_dir.
    destruct (images (register_user name cpf w).1 !! _); [reflexivity|].
    simpl. rewrite lookup_insert_ne by congruence. reflexivity.
Qed.

End EnrollmentCounters.

Lemma nine_live_reads_enroll :
  capture_user_faces "Carla" EmptyString 1 (Some nine_live_reads)
                     world_ana_bruno
  = (World (Some (users_ana_bruno ++ [User (Some 3) (Some "Carla") None]))
           (<[3 := ["000.jpg"]]> (images world_ana_bruno)) 1,
     Some 3).
Proof. vm_compute. reflexivity. Qed.

Lemma capture_success_postcondition_witness :
  3 = get_next_user_id (load_users world_ana_bruno).
Proof.
  apply (capture_success_postcondition "Carla" EmptyString 1 nine_live_reads
           world_ana_bruno 3).
  rewrite nine_live_reads_enroll. reflexivity.
Defined.

(** ** The embedding builder: what it writes *)

Section BuilderRecords.

Context {D : nat}.
Variable represent_path : string → option (list (rep D)).

Lemma collect_image_paths_item (w : world) (item : image_info) :
  item ∈ _collect_image_paths w →
  ∃ u names n,
    u ∈ load_users w ∧ user_id u = Some (info_id item)
    ∧ info_name item = user_name u ∧ info_cpf item = user_cpf u
    ∧ images w !! info_id item = Some names ∧ n ∈ names
    ∧ info_path item = image_path (info_id item) n.
Proof.
  unfold _collect_image_paths.
  rewrite list_elem_of_In, in_flat_map.
  intros (u & Hu & Hitem). apply list_elem_of_In in Hu.
  destruct (user_id u) as [uid|] eqn:Hid; [|contradiction].
  destruct (images w !! uid) as [names|] eqn:Hdir; [|contradiction].
  apply in_map_iff in Hitem as (n & <- & Hn). apply list_elem_of_In in Hn.
  exists u, names, n. simpl. auto 10.
Qed.

Lemma omap_length_le {A B : Type} (f : A → option B) (l : list A) :
  (length (omap f l) <= length l)%nat.
Proof.
  induction l as [|a l IH]; [simpl; lia|].
  cbn [omap list_omap]. fold (omap f l).
  destruct (f a); simpl length; lia.
Qed.

(** X12. [generate_embeddings] returns a count that is never negative; a
    count of 0 means that [embeddings.pkl] was left as it was; a positive
    count is the number of records written, at most one per stored image,
    and every record carries the id, name and cpf of a registered subject
    and the path of an image in that subject's directory. *)
Theorem generate_embeddings_records
    (pkl : option (list (embedding_record D))) (w : world) :
  0 <= (generate_embeddings represent_path pkl w).2
  ∧ ((generate_embeddings represent_path pkl w).2 = 0 →
     (generate_embeddings represent_path pkl w).1 = pkl)
  ∧ (0 < (generate_embeddings represent_path pkl w).2 →
     ∃ l, (generate_embeddings represent_path pkl w).1 = Some l
          ∧ (generate_embeddings represent_path pkl w).2
            = Z.of_nat (length l)
          ∧ (length l <= length (_collect_image_paths w))%nat
          ∧ ∀ e, e ∈ l →
                 ∃ u uid names n,
                   u ∈ load_users w ∧ user_id u = Some uid
                   ∧ e_id e = Some uid
                   ∧ e_name e = user_name u ∧ e_cpf e = user_cpf u
                   ∧ images w !! uid = Some names ∧ n ∈ names
                   ∧ e_image e = image_path uid n).
Proof.
  unfold generate_embeddings.
  destruct (_collect_image_paths w) as [|i0 items] eqn:Hinfo.
  { simpl. split; [lia|]. split; [reflexivity|lia]. }
  pose proof (omap_length_le (embed_image represent_path) (i0 :: items))
    as Hlen.
  destruct (omap (embed_image represent_path) (i0 :: items))
    as [|e0 es] eqn:Hemb.
  { simpl. split; [lia|]. split; [reflexivity|lia]. }
  cbn [fst snd]. split; [lia|]. split; [simpl length; lia|].
  intros _. exists (e0 :: es).
  split; [reflexivity|]. split; [reflexivity|]. split; [exact Hlen|].
  intros e He. rewrite <- Hemb in He.
  apply list_elem_of_omap in He as (item & Hitem & Hembed).
  rewrite <- Hinfo in Hitem.
  apply collect_image_paths_item in Hitem
    as (u & names & n & Hu & Hid & Hname & Hcpf & Hdir & Hn & Hpath).
  unfold embed_image in Hembed.
  destruct (represent_path (info_path item)) as [[|r rs]|]; try discriminate.
  injection Hembed as <-. simpl.
  exists u, (info_id item), names, n. auto 10.
Qed.

End BuilderRecords.

(** ** The SQLite copy *)

Section SqliteCopy.

Context {D : nat}.

(** The row that [replace_embeddings] inserts for a record. *)
Lemma insert_embeddings_spec (embeddings : list (embedding_record D)) :
  ∀ db,
    (Forall (fun e => is_Some (e_id e)) embeddings →
     ∃ db',
       insert_embeddings embeddings db = Some db'
       ∧ embeddings_table db'
         = embeddings_table db
           ++ omap (fun e => (fun id => EmbeddingRow D id (e_image e)
                                                     (e_embedding e))
                             <$> e_id e)
                   embeddings
       ∧ (∀ e id, e ∈ embeddings → e_id e = Some id →
                  is_Some (subjects db' !! id))
       ∧ (∀ id, is_Some (subjects db !! id) → is_Some (subjects db' !! id))
       ∧ (∀ id, (∀ e, e ∈ embeddings → e_id e ≠ Some id) →
                subjects db' !! id = subjects db !! id))
    ∧ (¬ Forall (fun e => is_Some (e_id e)) embeddings →
       insert_embeddings embeddings db = None).
Proof.
  induction embeddings as [|e es IH]; intros db.
  - split.
    + intros _. exists db. simpl. rewrite app_nil_r.
      split; [reflexivity|]. split; [reflexivity|].
      split; [|split; auto].
      intros e id He. apply elem_of_nil in He. contradiction.
    + intros Hnot. exfalso. apply Hnot. constructor.
  - cbn [insert_embeddings]. destruct (e_id e) as [sid|] eqn:Hid.
    + set (db1 := Database D
                    (subjects (upsert_subject sid (e_name e) (e_cpf e) db))
                    (embeddings_table
                       (upsert_subject sid (e_name e) (e_cpf e) db)
                     ++ [EmbeddingRow D sid (e_image e) (e_embedding e)])).
      destruct (IH db1) as [IHok IHbad]. split.
      * intros Hall. apply Forall_cons in Hall as [_ Hall].
        destruct (IHok Hall) as (db' & Hins & Htab & Hsub & Hkeep & Hother).
        exists db'. split; [exact Hins|]. split; [|split; [|split]].
        -- rewrite Htab. cbn [omap list_omap]. rewrite Hid. simpl.
           rewrite <- app_assoc. reflexivity.
        -- intros e' id He' Hid'.
           apply elem_of_cons in He' as [->|He']; [|eauto].
           apply Hkeep. rewrite Hid in Hid'. injection Hid' as <-.
           unfold db1, upsert_subject. simpl.
           rewrite lookup_insert_eq. eauto.
        -- intros id Hsome. apply Hkeep. unfold db1, upsert_subject. simpl.
           destruct (decide (sid = id)) as [->|Hne].
           ++ rewrite lookup_insert_eq. eauto.
           ++ rewrite lookup_insert_ne by exact Hne. exact Hsome.
        -- intros id Hfresh. rewrite Hother.
           ++ unfold db1, upsert_subject. simpl.
              apply lookup_insert_ne. intros ->.
              apply (Hfresh e); [left|exact Hid].
           ++ intros e' He'. apply Hfresh. right. exact He'.
      * intros Hnot. apply IHbad. intros Hall. apply Hnot.
        constructor; [rewrite Hid; eauto|exact Hall].
    + split; [|reflexivity].
      intros Hall. apply Forall_cons in Hall as [[x Hx] _]. congruence.
Qed.

Lemma replace_embeddings_all_or_nothing_aux
    (embeddings : list (embedding_record D)) (db : database D) :
  embeddings ≠ [] →
  (Forall (fun e => is_Some (e_id e)) embeddings →
   (replace_embeddings embeddings db).2 = true
   ∧ embeddings_table (replace_embeddings embeddings db).1
     = omap (fun e => (fun id => EmbeddingRow D id (e_image e)
                                              (e_embedding e))
                      <$> e_id e)
            embeddings
   ∧ length (embeddings_table (replace_embeddings embeddings db).1)
     = length embeddings
   ∧ (∀ row, row ∈ embeddings_table (replace_embeddings embeddings db).1 →
             is_Some (subjects (replace_embeddings embeddings db).1
                      !! row_subject_id row))
   ∧ (∀ id, (∀ e, e ∈ embeddings → e_id e ≠ Some id) →
            subjects (replace_embeddings embeddings db).1 !! id
            = subjects db !! id))
  ∧ (¬ Forall (fun e => is_Some (e_id e)) embeddings →
     replace_embeddings embeddings db = (db, false)).
Proof.
  intros Hne. unfold replace_embeddings.
  destruct embeddings as [|e0 es] eqn:Hembs; [congruence|].
  rewrite <- Hembs in *. clear Hne.
  destruct (insert_embeddings_spec embeddings (Database D (subjects db) []))
    as [Hok Hbad].
  split.
  - intros Hall.
    destruct (Hok Hall) as (db' & Hins & Htab & Hsub & _ & Hother).
    rewrite Hins. cbn [fst snd]. simpl in Htab.
    split; [reflexivity|]. split; [exact Htab|]. split; [|split].
    + rewrite Htab. clear -Hall.
      induction Hall as [|e es [id Hid] _ IH]; [reflexivity|].
      cbn [omap list_omap]. rewrite Hid. simpl. f_equal. exact IH.
    + intros row Hrow. rewrite Htab in Hrow.
      apply list_elem_of_omap in Hrow as (e & He & Hrow).
      destruct (e_id e) as [id|] eqn:Hid; [|discriminate].
      injection Hrow as <-. simpl. eauto.
    + intros id Hfresh. rewrite (Hother id Hfresh). reflexivity.
  - intros Hnot. rewrite (Hbad Hnot). reflexivity.
Qed.


Lemma joined_rows_total (db : database D) :
  (∀ row, row ∈ embeddings_table db →
          is_Some (subjects db !! row_subject_id row)) →
  map fst (joined_rows db) = embeddings_table db
  ∧ ∀ r, r ∈ joined_rows db →
         subjects db !! row_subject_id r.1 = Some r.2.
Proof.
  unfold joined_rows. induction (embeddings_table db) as [|row rows IH].
  - intros _. split; [reflexivity|].
    intros r Hr. apply elem_of_nil in Hr. contradiction.
  - intros Hall. cbn [omap list_omap].
    destruct (Hall row ltac:(left)) as [s Hs]. rewrite Hs. simpl.
    destruct IH as [IHmap IHsub].
    { intros r Hr. apply Hall. right. exact Hr. }
    split; [f_equal; exact IHmap|].
    intros r Hr. apply elem_of_cons in Hr as [->|Hr]; [exact Hs|auto].
Qed.

Lemma meta_fold_spec
    (rows : list (embedding_row D * subject_row)) :
  ∀ meta0 : gmap Z subject_meta,
    let meta :=
      foldl (fun meta r =>
               let sid := row_subject_id r.1 in
               match meta !! sid with
               | Some _ => meta
               | None =>
                   <[sid := SubjectMeta (Some (subject_name r.2))
                                        (subject_cpf r.2)]> meta
               end) meta0 rows in
    ∀ id, (is_Some (meta !! id)
           ↔ is_Some (meta0 !! id)
             ∨ ∃ r, r ∈ rows ∧ row_subject_id r.1 = id)
          ∧ (∀ m, meta !! id = Some m →
                  meta0 !! id = Some m
                  ∨ ∃ r, r ∈ rows ∧ row_subject_id r.1 = id
                         ∧ m = SubjectMeta (Some (subject_name r.2))
                                           (subject_cpf r.2)).
Proof.
  induction rows as [|r rows IH]; intros meta0; cbn zeta.
  - intros id. simpl. split; [|auto].
    split; [auto|]. intros [H|(r & Hr & _)]; [exact H|].
    apply elem_of_nil in Hr. contradiction.
  - intros id. cbn [foldl].
    set (meta1 := match meta0 !! row_subject_id r.1 with
                  | Some _ => meta0
                  | None => <[row_subject_id r.1 :=
                               SubjectMeta (Some (subject_name r.2))
                                           (subject_cpf r.2)]> meta0
                  end).
    destruct (IH meta1 id) as [IHdom IHval].
    assert (Hdom1 : is_Some (meta1 !! id)
                    ↔ is_Some (meta0 !! id) ∨ row_subject_id r.1 = id).
    { unfold meta1.
      destruct (meta0 !! row_subject_id r.1) as [m0|] eqn:Hm0.
      - split; [auto|]. intros [H|<-]; [exact H|]. rewrite Hm0. eauto.
      - destruct (decide (row_subject_id r.1 = id)) as [<-|Hne].
        + rewrite lookup_insert_eq. split; eauto.
        + rewrite lookup_insert_ne by exact Hne.
          split; [auto|]. intros [H|H]; [exact H|contradiction]. }
    assert (Hval1 : ∀ m, meta1 !! id = Some m →
                         meta0 !! id = Some m
                         ∨ (row_subject_id r.1 = id
                            ∧ m = SubjectMeta (Some (subject_name r.2))
                                              (subject_cpf r.2))).
    { intros m. unfold meta1.
      destruct (meta0 !! row_subject_id r.1) as [m0|] eqn:Hm0; [auto|].
      destruct (decide (row_subject_id r.1 = id)) as [<-|Hne].
      - rewrite lookup_insert_eq. intros [= <-]. auto.
      - rewrite lookup_insert_ne by exact Hne. auto. }
    split.
    + rewrite IHdom, Hdom1. split.
      * intros [[H|H]|(r' & Hr' & Hid)]; [auto| |].
        -- right. exists r. split; [left|exact H].
        -- right. exists r'. split; [right; exact Hr'|exact Hid].
      * intros [H|(r' & Hr' & Hid)]; [auto|].
        apply elem_of_cons in Hr' as [->|Hr']; [auto|].
        right. eauto.
    + intros m Hm. destruct (IHval m Hm) as [H1|(r' & Hr' & Hid & Hmeq)].
      * destruct (Hval1 m H1) as [H0|[Hid Hmeq]]; [auto|].
        right. exists r. split; [left|auto].
      * right. exists r'. split; [right; exact Hr'|auto].
Qed.

(** X14. What [replace_embeddings] stores, [load_embeddings_dataset]
    reads back, provided the subject ids fit the 32-bit integers of [y]:
    the descriptors and the subject ids of the records, in order, and
    metadata for exactly the ids that occur, each taken from the row of
    that subject in the [subjects] table. *)
Theorem replace_then_load_round_trip
    (embeddings : list (embedding_record D)) (db : database D) :
  embeddings ≠ [] →
  Forall (fun e => is_Some (e_id e)) embeddings →
  Forall (fun sid => -2147483648 <= sid <= 2147483647)
         (omap e_id embeddings) →
  ∃ X y meta,
    load_embeddings_dataset (replace_embeddings embeddings db).1
    = Some (X, y, meta)
    ∧ X = map e_embedding embeddings
    ∧ y = omap e_id embeddings
    ∧ (∀ id, is_Some (meta !! id) ↔ id ∈ omap e_id embeddings)
    ∧ (∀ id m,
         meta !! id = Some m →
         ∃ s, subjects (replace_embeddings embeddings db).1 !! id = Some s
              ∧ m = SubjectMeta (Some (subject_name s)) (subject_cpf s)).
Proof.
  intros Hne Hall Hfit.
  destruct (proj1 (replace_embeddings_all_or_nothing_aux embeddings db Hne)
                  Hall) as (_ & Htab & _ & Hsub & _).
  set (db' := (replace_embeddings embeddings db).1) in *.
  destruct (joined_rows_total db' Hsub) as [Hfst Hjoin].
  assert (Hids : map (fun r : embedding_row D * subject_row =>
                        row_subject_id r.1) (joined_rows db')
                 = omap e_id embeddings).
  { rewrite <- (map_map fst row_subject_id), Hfst, Htab. clear -Hall.
    induction Hall as [|e es [id Hid] _ IH]; [reflexivity|].
    cbn [omap list_omap]. rewrite Hid. simpl. f_equal. exact IH. }
  assert (Hvecs : map (fun r : embedding_row D * subject_row =>
                         row_embedding r.1) (joined_rows db')
                  = map e_embedding embeddings).
  { rewrite <- (map_map fst row_embedding), Hfst, Htab. clear -Hall.
    induction Hall as [|e es [id Hid] _ IH]; [reflexivity|].
    cbn [omap list_omap]. rewrite Hid. simpl. f_equal. exact IH. }
  unfold load_embeddings_dataset.
  destruct (joined_rows db') as [|r0 rows] eqn:Hrows.
  { exfalso. destruct embeddings as [|e es]; [congruence|].
    simpl in Hvecs. discriminate. }
  rewrite <- Hrows in *. cbv zeta. rewrite Hids, Hvecs. unfold int32_array.
  destruct (decide (Forall _ (omap e_id embeddings))) as [_|Hbad];
    [|contradiction].
  eexists _, _, _. split; [reflexivity|].
  split; [reflexivity|]. split; [reflexivity|].
  pose proof (meta_fold_spec (joined_rows db') ∅) as Hmeta.
  cbn zeta in Hmeta. split.
  - intros id. destruct (Hmeta id) as [Hdom _]. rewrite Hdom.
    rewrite lookup_empty, <- Hids.
    change (map (fun r : embedding_row D * subject_row =>
                   row_subject_id r.1) (joined_rows db'))
      with ((fun r : embedding_row D * subject_row =>
               row_subject_id r.1) <$> joined_rows db').
    rewrite list_elem_of_fmap. split.
    + intros [[x Hx]|(r & Hr & Hid)]; [discriminate|]. eauto.
    + intros (r & Hid & Hr). right. eauto.
  - intros id m Hm. destruct (Hmeta id) as [_ Hval].
    destruct (Hval m Hm) as [H0|(r & Hr & Hid & Hmeq)].
    + rewrite lookup_empty in H0. discriminate.
    + exists r.2. split; [|exact Hmeq]. rewrite <- Hid. apply Hjoin.
      exact Hr.
Qed.

End SqliteCopy.


Lemma replace_then_load_round_trip_witness :
  ∃ X meta,
    load_embeddings_dataset (replace_embeddings [ana; bruno]
                                                database_with_ana).1
    = Some (X, [1; 2], meta).
Proof.
  destruct (replace_then_load_round_trip [ana; bruno]
              database_with_ana ltac:(congruence)
              ltac:(repeat constructor; simpl; eauto)
              ltac:(repeat constructor; simpl; lia))
    as (X & y & meta & Hload & _ & Hy & _).
  exists X, meta. rewrite Hload, Hy. reflexivity.
Defined.

(** ** Builder and database together *)

Section BuilderAndDatabase.

Context {D : nat}.
Variable represent_path : string → option (list (rep D)).

Lemma generate_embeddings_ids
    (pkl : option (list (embedding_record D))) (w : world) :
  (generate_embeddings represent_path pkl w).2 <= 0
  ∧ (generate_embeddings represent_path pkl w).1 = pkl
  ∨ ∃ l, generate_embeddings represent_path pkl w
         = (Some l, Z.of_nat (length l))
         ∧ l ≠ [] ∧ Forall (fun e => is_Some (e_id e)) l.
Proof.
  unfold generate_embeddings.
  destruct (_collect_image_paths w) as [|i0 items]; [left; simpl; auto with zarith|].
  destruct (omap (embed_image represent_path) (i0 :: items))
    as [|e0 es] eqn:Hemb; [left; simpl; auto with zarith|].
  right. exists (e0 :: es). split; [reflexivity|]. split; [congruence|].
  rewrite <- Hemb. apply Forall_forall. intros e He.
  apply list_elem_of_omap in He as (item & _ & Hembed).
  unfold embed_image in Hembed.
  destruct (represent_path (info_path item)) as [[|r rs]|]; try discriminate.
  injection Hembed as <-. simpl. eauto.
Qed.


End BuilderAndDatabase.

(** ** The audit file over a session *)

Section AuditFile.

Context {D : nat}.

Lemma log_access_events_existing
    (events : list (access_event D)) :
  ∀ old,
    log_access_events (Some old) events
    = Some (old +:+ String.concat EmptyString
                      (map (fun ev => Csv.writerow
                                        (access_log_row (ev_user ev)
                                                        (ev_timestamp ev)))
                           events)).
Proof.
  unfold log_access_events.
  induction events as [|ev rest IH]; intros old.
  - simpl. rewrite string_app_nil_r. reflexivity.
  - cbn [foldl]. unfold _log_access_event at 2.
    rewrite bool_decide_eq_true_2 by eauto. cbn [fst default from_option].
    change (old +:+ EmptyString +:+ ?r) with (old +:+ r).
    rewrite IH. cbn [map]. rewrite string_app_assoc.
    destruct rest as [|ev' rest']; [|reflexivity].
    simpl. rewrite string_app_nil_r. reflexivity.
Qed.

(** X16. Over the calls of a session the header is written once, by the
    first call and only if the file did not exist, and the rows follow in
    the order of the events; without any event the file is not created. *)
Theorem log_access_events_header_once
    (csvfile : option string) (ev : access_event D)
    (rest : list (access_event D)) :
  log_access_events (D := D) csvfile [] = csvfile
  ∧ log_access_events csvfile (ev :: rest)
    = Some (default (Csv.writerow access_log_header) csvfile
            +:+ String.concat EmptyString
                  (map (fun ev => Csv.writerow
                                    (access_log_row (ev_user ev)
                                                    (ev_timestamp ev)))
                       (ev :: rest))).
Proof.
  split; [reflexivity|].
  destruct csvfile as [old|]; [apply log_access_events_existing|].
  unfold log_access_events. cbn [foldl].
  change (_log_access_event Completed None (ev_user ev) (ev_timestamp ev)).1
    with (Some (Csv.writerow access_log_header
                +:+ Csv.writerow (access_log_row (ev_user ev)
                                                 (ev_timestamp ev)))).
  pose proof (log_access_events_existing rest
                (Csv.writerow access_log_header
                 +:+ Csv.writerow (access_log_row (ev_user ev)
                                                  (ev_timestamp ev)))) as H.
  unfold log_access_events in H. rewrite H. cbn [default from_option map].
  rewrite string_app_assoc.
  destruct rest as [|ev' rest']; [|reflexivity].
  simpl. rewrite string_app_nil_r. reflexivity.
Qed.

End AuditFile.

(** ** The text of the frame *)

Section OverlayText.

Context {D : nat}.
Variable strftime : Z → string.

(** X17. Once the classifier has returned probabilities for a frame, the
    text of that frame never reports a distance: when the classifier's
    class is not accepted and the match comes from the distance search,
    the name of that match is shown with the probability the classifier
    gave to its own top class. *)
Theorem overlay_shows_classifier_probability
    (ss : session D) (st : loop_state) (f : frame D)
    (r : rep D) (rs : list (rep D)) (p : R) :
  frame_represent f = RepresentOk (r :: rs) →
  (classifier_path ss (rep_embedding r)).2 = Some p →
  er_best_proba (match_engine ss (rep_embedding r)) = Some p
  ∧ (∀ name d, out_text (process_frame strftime ss st f).2 ≠ DistText name d)
  ∧ (∀ md,
       out_match (process_frame strftime ss st f).2 = Some md →
       out_text (process_frame strftime ss st f).2
       = ProbaText (match_name md) p
       ∨ out_text (process_frame strftime ss st f).2
         = StaticMatchText (match_name md)).
Proof.
  intros Hrep Hp.
  assert (Hbest : er_best_proba (match_engine ss (rep_embedding r)) = Some p).
  { unfold match_engine.
    destruct (classifier_path ss (rep_embedding r)) as [[m|] bp];
      simpl in Hp; subst bp; [reflexivity|].
    destruct (distance_path ss (rep_embedding r)). reflexivity. }
  split; [exact Hbest|].
  unfold process_frame. rewrite Hrep, Hbest.
  destruct (process_face strftime st f r _) as [[[st1 is_live] box] access].
  destruct (recheck_active _ _) as [md|]; cbn [snd out_text out_match];
    unfold overlay_text.
  - destruct (decide (is_live = Some false)).
    + split; [discriminate|]. intros md' [= <-]. auto.
    + split; [discriminate|]. intros md' [= <-]. auto.
  - destruct (decide (is_live = Some false)); split; discriminate.
Qed.

End OverlayText.

Lemma overlay_shows_classifier_probability_witness :
  er_best_proba (match_engine stale_session query_1) = Some 0.95%R.
Proof.
  apply (proj1 (overlay_shows_classifier_probability example_strftime
                  stale_session initial_state first_sighting
                  (Rep 1 query_1 (Some (FacialArea 10 10 100 100))) []
                  0.95%R eq_refl
                  (f_equal snd stale_classifier_path))).
Defined.

(** ** Dataset import *)

Section DatasetImport.

Lemma sorted_insert_nonempty (name : string) (names : list string) :
  sorted_insert name names ≠ [].
Proof.
  destruct names as [|n rest]; simpl; [discriminate|].
  destruct (String.eqb name n); [discriminate|].
  destruct (String.leb name n); discriminate.
Qed.

Lemma copy_images_effect (user_id : Z) (image_files : list string) :
  ∀ count w,
    users_json (copy_images user_id count image_files w) = users_json w
    ∧ json_writes (copy_images user_id count image_files w) = json_writes w
    ∧ (∀ other, other ≠ user_id →
                images (copy_images user_id count image_files w) !! other
                = images w !! other)
    ∧ (image_files ≠ [] →
       ∃ names, images (copy_images user_id count image_files w) !! user_id
                = Some names ∧ names ≠ [])
    ∧ ((∃ names, images w !! user_id = Some names ∧ names ≠ []) →
       ∃ names, images (copy_images user_id count image_files w) !! user_id
                = Some names ∧ names ≠ []).
Proof.
  induction image_files as [|src rest IH]; intros count w.
  - simpl. repeat split; auto. congruence.
  - cbn [copy_images].
    destruct (IH (count + 1) (imwrite user_id (image_name count) w))
      as (Hu & Hj & Ho & _ & Hkeep).
    assert (Hnow : ∃ names,
              images (imwrite user_id (image_name count) w) !! user_id
              = Some names ∧ names ≠ []).
    { eexists. unfold imwrite. simpl. rewrite lookup_insert_eq.
      split; [reflexivity|apply sorted_insert_nonempty]. }
    split; [rewrite Hu; reflexivity|]. split; [rewrite Hj; reflexivity|].
    split; [|split; intros _; apply Hkeep; exact Hnow].
    intros other Hne. rewrite (Ho other Hne). unfold imwrite. simpl.
    apply lookup_insert_ne. congruence.
Qed.

Lemma existing_by_name_app (users : list user) (u : user) :
  existing_by_name (users ++ [u])
  = match user_id u, user_name u with
    | Some id, Some name => <[name := id]> (existing_by_name users)
    | _, _ => existing_by_name users
    end.
Proof. unfold existing_by_name. rewrite foldl_app. reflexivity. Qed.

Lemma existing_by_name_lookup (users : list user) (name : string) (id : Z) :
  existing_by_name users !! name = Some id →
  ∃ u, u ∈ users ∧ user_id u = Some id ∧ user_name u = Some name.
Proof.
  induction users as [|u users IH] using rev_ind.
  - unfold existing_by_name. simpl. rewrite lookup_empty. discriminate.
  - rewrite existing_by_name_app.
    assert (Hold : existing_by_name users !! name = Some id →
                   ∃ u0, u0 ∈ users ++ [u] ∧ user_id u0 = Some id
                         ∧ user_name u0 = Some name).
    { intros H. destruct (IH H) as (u0 & Hu0 & Hrest).
      exists u0. split; [apply elem_of_app; left; exact Hu0|exact Hrest]. }
    destruct (user_id u) as [i|] eqn:Hi; [|exact Hold].
    destruct (user_name u) as [n|] eqn:Hn; [|exact Hold].
    destruct (decide (n = name)) as [->|Hne].
    + rewrite lookup_insert_eq. intros [= ->].
      exists u. split; [apply elem_of_app; right; left|auto].
    + rewrite lookup_insert_ne by exact Hne. exact Hold.
Qed.

(** What one person directory changes. *)
Lemma ingest_person_effect
    (st : gmap string Z * world) (person : string * list string) :
  (∀ n id, st.1 !! n = Some id → (ingest_person st person).1 !! n = Some id)
  ∧ (∀ id names, images st.2 !! id = Some names → names ≠ [] →
                 images (ingest_person st person).2 !! id = Some names)
  ∧ settled (ingest_person st person) person
  ∧ (st.1 = existing_by_name (load_users st.2) →
     (ingest_person st person).1
     = existing_by_name (load_users (ingest_person st person).2))
  ∧ (∃ extra, load_users (ingest_person st person).2
              = load_users st.2 ++ extra).
Proof.
  destruct st as [d w]. destruct person as [name files].
  unfold ingest_person, settled. cbn [fst snd].
  destruct files as [|f0 files'].
  { cbn [fst snd]. split; [auto|]. split; [auto|]. split; [congruence|].
    split; [auto|]. exists []. rewrite app_nil_r. reflexivity. }
  set (files := f0 :: files').
  assert (Hfiles : files ≠ []) by discriminate.
  destruct (d !! name) as [id|] eqn:Hname.
  - (* the name is known *)
    set (w2 := _create_user_image_dir id w).
    assert (Hw2 : users_json w2 = users_json w
                  ∧ (∀ j ns, images w !! j = Some ns → images w2 !! j = Some ns)).
    { unfold w2, _create_user_image_dir.
      destruct (images w !! id) eqn:Hd; [auto|]. simpl. split; [reflexivity|].
      intros j ns Hj. rewrite lookup_insert_ne; [exact Hj|congruence]. }
    destruct Hw2 as [Hreg Hdirs].
    destruct (images w2 !! id) as [ns|] eqn:Hdir.
    2: { exfalso. unfold w2, _create_user_image_dir in Hdir.
         destruct (images w !! id) eqn:Hd; [congruence|].
         simpl in Hdir. rewrite lookup_insert_eq in Hdir. discriminate. }
    cbn [default from_option Datatypes.id]. destruct ns as [|n0 ns'].
    + destruct (copy_images_effect id files 0 w2)
        as (Hu & _ & Ho & Hfill & _).
      cbn [fst snd]. split; [auto|]. split; [|split; [|split]].
      * intros j names Hj Hne. destruct (decide (j = id)) as [->|Hji].
        -- apply Hdirs in Hj. congruence.
        -- rewrite (Ho j Hji). apply Hdirs. exact Hj.
      * intros _. destruct (Hfill Hfiles) as (names & Hn & Hne).
        exists id, names. auto.
      * intros ->. unfold load_users. rewrite Hu, Hreg. reflexivity.
      * exists []. unfold load_users. rewrite Hu, Hreg, app_nil_r.
        reflexivity.
    + cbn [fst snd]. split; [auto|]. split; [auto|]. split; [|split].
      * intros _. exists id, (n0 :: ns'). split; [exact Hname|].
        split; [exact Hdir|discriminate].
      * intros ->. unfold load_users. rewrite Hreg. reflexivity.
      * exists []. unfold load_users. rewrite Hreg, app_nil_r. reflexivity.
  - (* a new subject is registered *)
    destruct (register_user_users name EmptyString w) as [Husers Hid].
    destruct (register_user name EmptyString w) as [w' id] eqn:Hreg.
    cbn [fst snd] in Husers, Hid. cbn [nonempty] in Husers.
    assert (Himg : images w' = images w).
    { unfold register_user in Hreg. injection Hreg as <- _. reflexivity. }
    set (w2 := _create_user_image_dir id w').
    assert (Hw2 : users_json w2 = users_json w'
                  ∧ (∀ j ns, images w !! j = Some ns → images w2 !! j = Some ns)).
    { unfold w2, _create_user_image_dir.
      destruct (images w' !! id) eqn:Hd; [rewrite Himg; auto|].
      simpl. split; [reflexivity|].
      intros j ns Hj. rewrite lookup_insert_ne; [rewrite Himg; exact Hj|].
      intros <-. rewrite Himg in Hd. congruence. }
    destruct Hw2 as [Hreg2 Hdirs].
    assert (Hkeepd : ∀ n i, d !! n = Some i → <[name := id]> d !! n = Some i).
    { intros n i Hn. rewrite lookup_insert_ne; [exact Hn|]. congruence. }
    assert (Hdict : d = existing_by_name (load_users w) →
                    <[name := id]> d = existing_by_name (load_users w')).
    { intros ->. rewrite Husers, existing_by_name_app. simpl.
      rewrite Hid. reflexivity. }
    destruct (images w2 !! id) as [ns|] eqn:Hdir.
    2: { exfalso. unfold w2, _create_user_image_dir in Hdir.
         destruct (images w' !! id) eqn:Hd; [congruence|].
         simpl in Hdir. rewrite lookup_insert_eq in Hdir. discriminate. }
    cbn [default from_option Datatypes.id]. destruct ns as [|n0 ns'].
    + destruct (copy_images_effect id files 0 w2)
        as (Hu & _ & Ho & Hfill & _).
      cbn [fst snd]. split; [exact Hkeepd|]. split; [|split; [|split]].
      * intros j names Hj Hne. destruct (decide (j = id)) as [->|Hji].
        -- apply Hdirs in Hj. congruence.
        -- rewrite (Ho j Hji). apply Hdirs. exact Hj.
      * intros _. destruct (Hfill Hfiles) as (names & Hn & Hne).
        exists id, names. rewrite lookup_insert_eq. auto.
      * intros Hd. rewrite (Hdict Hd). unfold load_users.
        rewrite Hu, Hreg2. reflexivity.
      * eexists. unfold load_users at 1. rewrite Hu, Hreg2.
        exact Husers.
    + cbn [fst snd]. split; [exact Hkeepd|]. split; [auto|].
      split; [|split].
      * intros _. exists id, (n0 :: ns'). rewrite lookup_insert_eq.
        split; [reflexivity|]. split; [exact Hdir|discriminate].
      * intros Hd. rewrite (Hdict Hd). unfold load_users.
        rewrite Hreg2. reflexivity.
      * eexists. unfold load_users at 1. rewrite Hreg2. exact Husers.
Qed.

Lemma ingest_person_settled
    (st : gmap string Z * world) (person : string * list string) :
  settled st person → ingest_person st person = st.
Proof.
  destruct st as [d w]. destruct person as [name files].
  unfold settled, ingest_person. cbn [fst snd].
  destruct files as [|f0 files']; [reflexivity|].
  intros Hs. destruct (Hs ltac:(discriminate)) as (id & names & Hd & Hdir & Hne).
  rewrite Hd. unfold _create_user_image_dir. rewrite Hdir.
  cbn [default from_option Datatypes.id]. rewrite Hdir. cbn [default from_option Datatypes.id].
  destruct names; [congruence|reflexivity].
Qed.

Lemma settled_mono
    (st : gmap string Z * world) (p q : string * list string) :
  settled st q → settled (ingest_person st p) q.
Proof.
  destruct (ingest_person_effect st p) as (Hd & Hdirs & _).
  unfold settled. intros Hs Hne.
  destruct (Hs Hne) as (id & names & Hn & Hdir & Hnames).
  exists id, names. auto.
Qed.

Lemma ingest_fold (people : list (string * list string)) :
  ∀ st,
    (∀ q, settled st q → settled (foldl ingest_person st people) q)
    ∧ (∀ p, p ∈ people → settled (foldl ingest_person st people) p)
    ∧ (st.1 = existing_by_name (load_users st.2) →
       (foldl ingest_person st people).1
       = existing_by_name (load_users (foldl ingest_person st people).2))
    ∧ (∀ id names, images st.2 !! id = Some names → names ≠ [] →
                   images (foldl ingest_person st people).2 !! id
                   = Some names)
    ∧ (∃ extra, load_users (foldl ingest_person st people).2
                = load_users st.2 ++ extra).
Proof.
  induction people as [|p rest IH]; intros st.
  - simpl. split; [auto|]. split.
    + intros p Hp. apply elem_of_nil in Hp. contradiction.
    + split; [auto|]. split; [auto|]. exists []. rewrite app_nil_r.
      reflexivity.
  - cbn [foldl].
    destruct (IH (ingest_person st p)) as (Hmono & Hall & Hdict & Hdirs & Hext).
    destruct (ingest_person_effect st p) as (_ & Hdirs1 & Hself & Hdict1 & Hext1).
    split; [intros q Hq; apply Hmono, settled_mono; exact Hq|].
    split; [|split; [auto|split; [auto|]]].
    + intros q Hq. apply elem_of_cons in Hq as [->|Hq]; [|auto].
      apply Hmono. exact Hself.
    + destruct Hext as [e2 He2]. destruct Hext1 as [e1 He1].
      exists (e1 ++ e2). rewrite He2, He1, app_assoc. reflexivity.
Qed.

Lemma ingest_fold_settled (people : list (string * list string)) :
  ∀ st, (∀ p, p ∈ people → settled st p) →
        foldl ingest_person st people = st.
Proof.
  induction people as [|p rest IH]; intros st Hall; [reflexivity|].
  cbn [foldl]. rewrite (ingest_person_settled st p) by (apply Hall; left).
  apply IH. intros q Hq. apply Hall. right. exact Hq.
Qed.

(** X18. Importing the same dataset a second time changes nothing: every
    person with images already has a subject of that name whose directory
    holds images, so no subject is registered and no file is copied. *)
Theorem ingest_lfw_dataset_idempotent
    (person_dirs : list (string * list string)) (w : world) :
  ingest_lfw_dataset person_dirs (ingest_lfw_dataset person_dirs w)
  = ingest_lfw_dataset person_dirs w.
Proof.
  unfold ingest_lfw_dataset.
  set (st0 := (existing_by_name (load_users w), w)).
  destruct (ingest_fold person_dirs st0) as (_ & Hall & Hdict & _).
  specialize (Hdict eq_refl).
  set (st1 := foldl ingest_person st0 person_dirs) in *.
  rewrite <- Hdict.
  replace (st1.1, st1.2) with st1 by (destruct st1; reflexivity).
  rewrite (ingest_fold_settled person_dirs st1 Hall). reflexivity.
Qed.

(** X19. The import keeps what is there: the records of the registry stay,
    in order, in front of the new ones, and a directory that already held
    images keeps exactly those images. Afterwards every person directory
    with images has a registered subject of its name whose directory holds
    images. *)
Theorem ingest_lfw_dataset_keeps_existing
    (person_dirs : list (string * list string)) (w : world) :
  (∃ added, load_users (ingest_lfw_dataset person_dirs w)
            = load_users w ++ added)
  ∧ (∀ id names, images w !! id = Some names → names ≠ [] →
                 images (ingest_lfw_dataset person_dirs w) !! id
                 = Some names)
  ∧ (∀ p, p ∈ person_dirs → p.2 ≠ [] →
          ∃ u id names,
            u ∈ load_users (ingest_lfw_dataset person_dirs w)
            ∧ user_id u = Some id ∧ user_name u = Some p.1
            ∧ images (ingest_lfw_dataset person_dirs w) !! id = Some names
            ∧ names ≠ []).
Proof.
  unfold ingest_lfw_dataset.
  set (st0 := (existing_by_name (load_users w), w)).
  destruct (ingest_fold person_dirs st0) as (_ & Hall & Hdict & Hdirs & Hext).
  specialize (Hdict eq_refl).
  split; [exact Hext|]. split; [exact Hdirs|].
  intros p Hp Hne.
  destruct (Hall p Hp Hne) as (id & names & Hname & Hdir & Hnames).
  rewrite Hdict in Hname.
  apply existing_by_name_lookup in Hname as (u & Hu & Hid & Hn).
  exists u, id, names. auto 10.
Qed.

End DatasetImport.

Lemma ingest_lfw_dataset_keeps_existing_witness :
  images (ingest_lfw_dataset lfw_people world_ana_bruno) !! 1
  = Some ["000.jpg"].
Proof.
  apply (proj1 (proj2 (ingest_lfw_dataset_keeps_existing
                         lfw_people world_ana_bruno)) 1 ["000.jpg"]);
    [reflexivity|discriminate].
Defined.

Example ingest_lfw_dataset_example :
  load_users (ingest_lfw_dataset lfw_people world_ana_bruno)
  = users_ana_bruno ++ [User (Some 3) (Some "Zoe") None]
  ∧ images (ingest_lfw_dataset lfw_people world_ana_bruno) !! 3
    = Some ["000.jpg"; "001.jpg"]
  ∧ json_writes (ingest_lfw_dataset lfw_people world_ana_bruno) = 1%nat.
Proof. vm_compute. auto. Qed.
